(** * sqlite-repair-go: page scanner and record decoder

    A shallow embedding of [repair/utils.go] ([readVarint], [parseRecord],
    [parseSerialType]) and of the page scanner of package [repair]
    ([processPage], [tryRecoverRow]), with the properties of the
    specification stated over it.

    Conventions.
    - Go's [uint64], [int64], [int], [uint16], ... are carried as [Z]; every
      conversion and every shift that can leave the range is written with
      its wrap-around ([u64], [i64], [i8], ...); [int] is 64 bits wide.
    - A [[]byte] is a [list byte]; [len] is its length as a [Z].  The slices
      handed to these functions have no spare capacity ([Run] allocates the
      page with [make([]byte, cfg.PageSize)]), and every slice expression
      with an explicit upper bound on a derived slice is guarded by a [len]
      test in the source, so capacity and length coincide wherever it
      matters.
    - Run-time panics of indexing and slicing are explicit: a Go function
      [f(...) (T, error)] becomes a function into [outcome T].
    - [strings.ToUpper], which the scanner applies to declared types, is
      library code: it is written out as the library documents it, with
      the Unicode case tables as a parameter. *)

From Stdlib Require Import ZArith Lia Strings.Byte Strings.Ascii Strings.String.
From stdpp Require Import base list strings.

Local Open Scope Z_scope.

(** ** Machine integers *)

Definition u16 (z : Z) : Z := z mod 2 ^ 16.
Definition u32 (z : Z) : Z := z mod 2 ^ 32.
Definition u64 (z : Z) : Z := z mod 2 ^ 64.

(** Reinterpretation of the low [w] bits as a two's-complement number. *)
Definition signed (w : Z) (z : Z) : Z :=
  let m := z mod 2 ^ w in
  if m <? 2 ^ (w - 1) then m else m - 2 ^ w.

Definition i8 : Z -> Z := signed 8.
Definition i16 : Z -> Z := signed 16.
Definition i32 : Z -> Z := signed 32.
Definition i64 : Z -> Z := signed 64.

(** [int] is 64 bits wide on the platforms the tool targets. *)
Definition int : Z -> Z := signed 64.

(** ** Byte slices *)

Definition byteZ (b : byte) : Z := Z.of_N (Byte.to_N b).

Definition len {A} (s : list A) : Z := Z.of_nat (length s).

(** The run-time panics of indexing and slicing.  Go reports the last two
    with one message ([slice bounds out of range [lo:hi]]); they are kept
    apart because only the first three are accesses outside the slice. *)
Inductive fault : Type :=
| IndexOutOfRange (i n : Z)       (* s[i]: i < 0 or i >= len(s) *)
| SliceBeyondCap (hi n : Z)       (* s[lo:hi]: hi < 0 or hi > cap(s) *)
| SliceBeyondLen (lo n : Z)       (* s[lo:]: lo < 0 or lo > len(s) *)
| SliceLowAboveHigh (lo hi : Z).  (* s[lo:hi]: hi in range, lo < 0 or lo > hi *)

(** Result of a Go call: a normal return without error, a return with a
    non-nil [error], or a panic. *)
Inductive outcome (A : Type) : Type :=
| Ok (a : A)
| Err (e : string)
| Panic (f : fault).
Arguments Ok {A} a.
Arguments Err {A} e.
Arguments Panic {A} f.

Definition bind {A B} (m : outcome A) (k : A -> outcome B) : outcome B :=
  match m with
  | Ok a => k a
  | Err e => Err e
  | Panic f => Panic f
  end.

Notation "'do' x <- m ; k" := (bind m (fun x => k))
  (at level 10, x pattern, m at level 100, k at level 200).

(** [s[i]] *)
Definition index {A} (s : list A) (i : Z) : outcome A :=
  if (i <? 0) || (len s <=? i) then Panic (IndexOutOfRange i (len s))
  else match s !! Z.to_nat i with
       | Some x => Ok x
       | None => Panic (IndexOutOfRange i (len s))
       end.

(** [s[lo:hi]] *)
Definition slice {A} (s : list A) (lo hi : Z) : outcome (list A) :=
  if (hi <? 0) || (len s <? hi) then Panic (SliceBeyondCap hi (len s))
  else if (lo <? 0) || (hi <? lo) then Panic (SliceLowAboveHigh lo hi)
  else Ok (take (Z.to_nat (hi - lo)) (drop (Z.to_nat lo) s)).

(** [s[lo:]] *)
Definition sliceFrom {A} (s : list A) (lo : Z) : outcome (list A) :=
  if (lo <? 0) || (len s <? lo) then Panic (SliceBeyondLen lo (len s))
  else Ok (drop (Z.to_nat lo) s).

(** [s[:hi]] *)
Definition sliceTo {A} (s : list A) (hi : Z) : outcome (list A) :=
  slice s 0 hi.

(** ** repair/utils.go *)

(** [readVarint]: the loop [for i := 0; i < 9; i++], with [left] the number
    of iterations still to run. *)
Fixpoint readVarint_loop (left : nat) (buf : list byte) (i v : Z)
  : outcome (Z * Z) :=
  match left with
  | O => if 9 <=? len buf then Ok (v, 9) else Ok (0, 0)
  | S left' =>
      if len buf <=? i then Ok (0, 0)
      else
        do b <- index buf i;
        let v' := Z.lor (u64 (Z.shiftl v 7)) (u64 (Z.land (byteZ b) 0x7f)) in
        if byteZ b <? 0x80 then Ok (v', i + 1)
        else readVarint_loop left' buf (i + 1) v'
  end.

Definition readVarint (buf : list byte) : outcome (Z * Z) :=
  readVarint_loop 9 buf 0 0.

(** [encoding/binary]: [binary.BigEndian.Uint16], [Uint32], [Uint64].  Each
    starts with a bounds-check hint on its last byte ([_ = b[1]], ...). *)
Definition BigEndian_Uint16 (b : list byte) : outcome Z :=
  do _ <- index b 1;
  do b1 <- index b 1;
  do b0 <- index b 0;
  Ok (Z.lor (byteZ b1) (u16 (Z.shiftl (byteZ b0) 8))).

Definition BigEndian_Uint32 (b : list byte) : outcome Z :=
  do _ <- index b 3;
  do b3 <- index b 3;
  do b2 <- index b 2;
  do b1 <- index b 1;
  do b0 <- index b 0;
  Ok (Z.lor (Z.lor (Z.lor (byteZ b3) (u32 (Z.shiftl (byteZ b2) 8)))
                   (u32 (Z.shiftl (byteZ b1) 16)))
            (u32 (Z.shiftl (byteZ b0) 24))).

Definition BigEndian_Uint64 (b : list byte) : outcome Z :=
  do _ <- index b 7;
  do b7 <- index b 7;
  do b6 <- index b 6;
  do b5 <- index b 5;
  do b4 <- index b 4;
  do b3 <- index b 3;
  do b2 <- index b 2;
  do b1 <- index b 1;
  do b0 <- index b 0;
  Ok (Z.lor (Z.lor (Z.lor (Z.lor (Z.lor (Z.lor (Z.lor
        (byteZ b7)
        (u64 (Z.shiftl (byteZ b6) 8)))
        (u64 (Z.shiftl (byteZ b5) 16)))
        (u64 (Z.shiftl (byteZ b4) 24)))
        (u64 (Z.shiftl (byteZ b3) 32)))
        (u64 (Z.shiftl (byteZ b2) 40)))
        (u64 (Z.shiftl (byteZ b1) 48)))
        (u64 (Z.shiftl (byteZ b0) 56))).

(** A [float64] is carried by its IEEE-754 binary64 bit pattern:
    [math.Float64frombits] reinterprets the 64 bits and changes none. *)
Record float64 : Type := Float64frombits { Float64bits : Z }.

(** The dynamic values a record field decodes to ([interface{}] holding
    [nil], [int64], [float64], [[]byte] or [string]). *)
Inductive Value : Type :=
| VNull
| VInt (n : Z)
| VFloat (f : float64)
| VBlob (b : list byte)
| VText (s : list byte).

Definition parseSerialType (t : Z) (buf : list byte) : outcome (Value * Z) :=
  match t with
  | 0 => Ok (VNull, 0)
  | 1 =>
      if len buf <? 1 then Err "buffer too short"
      else
        do b0 <- index buf 0;
        Ok (VInt (i64 (i8 (byteZ b0))), 1)
  | 2 =>
      if len buf <? 2 then Err "buffer too short"
      else
        do w <- BigEndian_Uint16 buf;
        Ok (VInt (i64 (i16 w)), 2)
  | 3 =>
      if len buf <? 3 then Err "buffer too short"
      else
        do b0 <- index buf 0;
        do b1 <- index buf 1;
        do b2 <- index buf 2;
        let val := Z.lor (Z.lor (i64 (Z.shiftl (i64 (i8 (byteZ b0))) 16))
                                (i64 (Z.shiftl (i64 (byteZ b1)) 8)))
                         (i64 (byteZ b2)) in
        Ok (VInt val, 3)
  | 4 =>
      if len buf <? 4 then Err "buffer too short"
      else
        do w <- BigEndian_Uint32 buf;
        Ok (VInt (i64 (i32 w)), 4)
  | 5 =>
      if len buf <? 6 then Err "buffer too short"
      else
        do b0 <- index buf 0;
        do b1 <- index buf 1;
        do rest <- sliceFrom buf 2;
        do w <- BigEndian_Uint32 rest;
        let val := Z.lor (Z.lor (i64 (Z.shiftl (i64 (i8 (byteZ b0))) 40))
                                (i64 (Z.shiftl (i64 (byteZ b1)) 32)))
                         (i64 w) in
        Ok (VInt val, 6)
  | 6 =>
      if len buf <? 8 then Err "buffer too short"
      else
        do w <- BigEndian_Uint64 buf;
        Ok (VInt (i64 w), 8)
  | 7 =>
      if len buf <? 8 then Err "buffer too short"
      else
        do w <- BigEndian_Uint64 buf;
        Ok (VFloat (Float64frombits w), 8)
  | 8 => Ok (VInt (i64 0), 0)
  | 9 => Ok (VInt (i64 1), 0)
  | _ =>
      if (12 <=? t) && (t mod 2 =? 0) then
        let n := int (u64 (t - 12) / 2) in
        if len buf <? n then Err "buffer too short for blob"
        else
          do b <- sliceTo buf n;
          Ok (VBlob b, n)
      else if (13 <=? t) && (t mod 2 =? 1) then
        let n := int (u64 (t - 13) / 2) in
        if len buf <? n then Err "buffer too short for string"
        else
          do s <- sliceTo buf n;
          Ok (VText s, n)
      else Err "unknown serial type"
  end.

(** [parseRecord], first loop: [for idx < len(header)].  Every round that
    does not leave the loop advances [idx] by at least one, so
    [len(header)] rounds are enough; [rounds] counts them down and
    [readTypes_rounds] shows that the count never cuts the loop short. *)
Fixpoint readTypes (rounds : nat) (header : list byte) (idx : Z)
    (types : list Z) : outcome (list Z) :=
  match rounds with
  | O => Ok types
  | S rounds' =>
      if idx <? len header then
        do rest <- sliceFrom header idx;
        do (t, n) <- readVarint rest;
        if n =? 0 then Ok types
        else readTypes rounds' header (idx + n) (types ++ [t])
      else Ok types
  end.

(** [parseRecord], second loop: [for _, t := range types]. *)
Fixpoint readValues (types : list Z) (body : list byte) (bodyIdx : Z)
    (values : list Value) : outcome (list Value) :=
  match types with
  | [] => Ok values
  | t :: types' =>
      do rest <- sliceFrom body bodyIdx;
      do (val, n) <- parseSerialType t rest;
      readValues types' body (bodyIdx + n) (values ++ [val])
  end.

Definition parseRecord (payload : list byte) : outcome (list Value) :=
  do (headerLen, n) <- readVarint payload;
  if (n =? 0) || (len payload <? int headerLen) then
    Err "invalid header length"
  else
    do header <- slice payload n headerLen;
    do body <- sliceFrom payload headerLen;
    do types <- readTypes (length header) header 0 [];
    readValues types body 0 [].

(** ** The page scanner *)

Record ColumnInfo : Type := mkColumnInfo
  { col_Name : string;
    col_Type : string;
    col_Pk : Z (* 1 if PK *) }.

Record TableInfo : Type := mkTableInfo
  { tbl_Name : string;
    tbl_Columns : list ColumnInfo }.

(** One [outDB.Exec(query, insertValues...)]: the statement, its arguments
    and whether it returned [err == nil]. *)
Record call : Type := mkCall
  { call_query : string;
    call_args : list Value;
    call_ok : bool }.

(** [strings.Join] *)
Fixpoint Join (elems : list string) (sep : string) : string :=
  match elems with
  | [] => ""
  | [e] => e
  | e :: elems' => e +:+ sep +:+ Join elems' sep
  end.

(** [fmt.Sprintf("INSERT OR IGNORE INTO %s VALUES (%s)", name,
    strings.Join(placeholders, ", "))] with one ["?"] per value. *)
Definition insertQuery (name : string) (values : list Value) : string :=
  let placeholders := repeat "?" (length values) in
  "INSERT OR IGNORE INTO " +:+ name +:+ " VALUES (" +:+
  Join placeholders ", " +:+ ")".

(** The ASCII path of [strings.ToUpper]: bytes ['a'..'z'] lose 0x20, every
    other byte is kept. *)
Definition upperByte (c : ascii) : ascii :=
  let n := nat_of_ascii c in
  if (97 <=? n)%nat && (n <=? 122)%nat then ascii_of_nat (n - 32) else c.

(** [strings.ToUpper] on a string of ASCII bytes. *)
Fixpoint asciiToUpper (s : string) : string :=
  match s with
  | EmptyString => EmptyString
  | String c s' => String (upperByte c) (asciiToUpper s')
  end.

(** *** [strings.ToUpper] of the Go library

    [tryRecoverRow] compares [strings.ToUpper(col.Type)] with "INTEGER".
    The function belongs to the Go library, not to this repository; it is
    written out here as the library documents it: an ASCII string takes
    the ASCII path above, any other string is decoded rune by rune as
    UTF-8 (a byte that starts no valid encoding is the rune [RuneError] of
    width 1), every rune is mapped by [unicode.ToUpper] and the results
    are encoded again.  The Unicode case tables behind [unicode.ToUpper]
    are a parameter, [To_UpperCase]: what they give for a rune above
    [MaxASCII]. *)

(** The bytes of a Go string, and the Go string of some bytes. *)
Definition stringBytes (s : string) : list Z :=
  map (fun c => Z.of_nat (nat_of_ascii c)) (list_ascii_of_string s).

Definition bytesString (bs : list Z) : string :=
  string_of_list_ascii (map (fun b => ascii_of_nat (Z.to_nat b)) bs).

(** Package [unicode/utf8]. *)
Definition RuneError : Z := 0xFFFD.
Definition RuneSelf : Z := 0x80.
Definition MaxRune : Z := 0x10FFFF.

(** Package [unicode]. *)
Definition MaxASCII : Z := 0x7F.

(** A continuation byte, [10xxxxxx]. *)
Definition continuation (b : Z) : bool := (0x80 <=? b) && (b <=? 0xBF).

(** [utf8.DecodeRuneInString]: the first rune of [s] and its width in
    bytes; [(RuneError, 0)] on the empty string and [(RuneError, 1)] where
    [s] does not start with a valid encoding (a stray continuation byte, a
    sequence cut short, an overlong form, a surrogate, a value above
    [MaxRune]). *)
Definition DecodeRuneInString (s : list Z) : Z * Z :=
  match s with
  | [] => (RuneError, 0)
  | s0 :: s' =>
      if s0 <? RuneSelf then (s0, 1)
      else if (0xC2 <=? s0) && (s0 <=? 0xDF) then
        match s' with
        | s1 :: _ =>
            if continuation s1 then
              (Z.lor (Z.shiftl (Z.land s0 0x1F) 6) (Z.land s1 0x3F), 2)
            else (RuneError, 1)
        | _ => (RuneError, 1)
        end
      else if (0xE0 <=? s0) && (s0 <=? 0xEF) then
        match s' with
        | s1 :: s2 :: _ =>
            if ((if s0 =? 0xE0 then 0xA0 else 0x80) <=? s1)
               && (s1 <=? (if s0 =? 0xED then 0x9F else 0xBF))
               && continuation s2
            then
              (Z.lor (Z.lor (Z.shiftl (Z.land s0 0x0F) 12)
                            (Z.shiftl (Z.land s1 0x3F) 6))
                     (Z.land s2 0x3F), 3)
            else (RuneError, 1)
        | _ => (RuneError, 1)
        end
      else if (0xF0 <=? s0) && (s0 <=? 0xF4) then
        match s' with
        | s1 :: s2 :: s3 :: _ =>
            if ((if s0 =? 0xF0 then 0x90 else 0x80) <=? s1)
               && (s1 <=? (if s0 =? 0xF4 then 0x8F else 0xBF))
               && continuation s2 && continuation s3
            then
              (Z.lor (Z.lor (Z.lor (Z.shiftl (Z.land s0 0x07) 18)
                                   (Z.shiftl (Z.land s1 0x3F) 12))
                            (Z.shiftl (Z.land s2 0x3F) 6))
                     (Z.land s3 0x3F), 4)
            else (RuneError, 1)
        | _ => (RuneError, 1)
        end
      else (RuneError, 1)
  end.

(** [utf8.AppendRune] to an empty slice: the UTF-8 encoding of [r], that
    of [RuneError] for a rune that is out of range or a surrogate. *)
Definition EncodeRune (r : Z) : list Z :=
  if (0 <=? r) && (r <=? 0x7F) then [r]
  else if (0 <=? r) && (r <=? 0x7FF) then
    [Z.lor 0xC0 (Z.shiftr r 6); Z.lor 0x80 (Z.land r 0x3F)]
  else if (r <? 0) || (MaxRune <? r) || ((0xD800 <=? r) && (r <=? 0xDFFF))
  then [0xEF; 0xBF; 0xBD]
  else if r <=? 0xFFFF then
    [Z.lor 0xE0 (Z.shiftr r 12);
     Z.lor 0x80 (Z.land (Z.shiftr r 6) 0x3F);
     Z.lor 0x80 (Z.land r 0x3F)]
  else
    [Z.lor 0xF0 (Z.shiftr r 18);
     Z.lor 0x80 (Z.land (Z.shiftr r 12) 0x3F);
     Z.lor 0x80 (Z.land (Z.shiftr r 6) 0x3F);
     Z.lor 0x80 (Z.land r 0x3F)].

(** [unicode.ToUpper]: ['a'..'z'] lose ['a' - 'A'], the other ASCII runes
    are kept, and a rune above [MaxASCII] is looked up in the case
    tables. *)
Definition unicode_ToUpper (To_UpperCase : Z -> Z) (r : Z) : Z :=
  if r <=? MaxASCII then
    if (0x61 <=? r) && (r <=? 0x7A) then r - (0x61 - 0x41) else r
  else To_UpperCase r.

(** [strings.Map]: the runes of [s], each mapped and encoded; a rune
    mapped to a negative value is dropped.  The library copies the bytes
    of the runes before the first one that changes instead of encoding
    them again, which gives the same string
    ([EncodeRune_DecodeRuneInString]); a byte that starts no valid
    encoding counts as changed and comes out as what [RuneError] is
    mapped to.  Every round takes at least one byte off [s], so [len(s)]
    rounds are enough ([Map_loop_rounds]). *)
Fixpoint Map_loop (rounds : nat) (mapping : Z -> Z) (s : list Z) : list Z :=
  match rounds with
  | O => []
  | S rounds' =>
      match s with
      | [] => []
      | _ :: _ =>
          let '(c, width) := DecodeRuneInString s in
          let r := mapping c in
          (if 0 <=? r then EncodeRune r else [])
          ++ Map_loop rounds' mapping (drop (Z.to_nat width) s)
      end
  end.

Definition Map (mapping : Z -> Z) (s : list Z) : list Z :=
  Map_loop (length s) mapping s.

(** [strings.ToUpper]: a string of ASCII bytes takes the ASCII path, any
    other string goes through [strings.Map] with [unicode.ToUpper]. *)
Definition strings_ToUpper (To_UpperCase : Z -> Z) (s : string) : string :=
  if forallb (fun c => c <? RuneSelf) (stringBytes s) then asciiToUpper s
  else bytesString (Map (unicode_ToUpper To_UpperCase) (stringBytes s)).

Section Scanner.

(** The output database is an external collaborator: [DB] is its state and
    [Exec] one statement run against it, returning the new state and
    whether the statement succeeded.  [ToUpper] is [strings.ToUpper]:
    [strings_ToUpper] above with the case tables of the library. *)
Variable DB : Type.
Variable Exec : DB -> string -> list Value -> DB * bool.
Variable ToUpper : string -> string.

(** The test [col.Pk == 1 && strings.ToUpper(col.Type) == "INTEGER"]. *)
Definition isIntegerPk (col : ColumnInfo) : bool :=
  (col_Pk col =? 1) && String.eqb (ToUpper (col_Type col)) "INTEGER".

(** [tryRecoverRow], inner loop [for i, col := range table.Columns]. *)
Fixpoint fillRowID (cols : list ColumnInfo) (i : Z) (rowID : Z)
    (insertValues : list Value) : outcome (list Value) :=
  match cols with
  | [] => Ok insertValues
  | col :: cols' =>
      if isIntegerPk col then
        do v <- index insertValues i;
        match v with
        | VNull =>
            fillRowID cols' (i + 1) rowID
              (<[Z.to_nat i := VInt (i64 rowID)]> insertValues)
        | _ => fillRowID cols' (i + 1) rowID insertValues
        end
      else fillRowID cols' (i + 1) rowID insertValues
  end.

(** [tryRecoverRow]: the database after the attempts, the [Exec] calls
    made in order, and how the function ended. *)
Fixpoint tryRecoverRow (rowID : Z) (values : list Value)
    (tables : list TableInfo) (outDB : DB) : DB * list call * outcome unit :=
  match tables with
  | [] => (outDB, [], Ok tt)
  | table :: tables' =>
      if negb (len (tbl_Columns table) =? len values) then
        tryRecoverRow rowID values tables' outDB
      else
        match fillRowID (tbl_Columns table) 0 rowID values with
        | Ok insertValues =>
            let query := insertQuery (tbl_Name table) values in
            let (outDB', ok) := Exec outDB query insertValues in
            if ok then (outDB', [mkCall query insertValues true], Ok tt)
            else
              let '(outDB'', calls, r) :=
                tryRecoverRow rowID values tables' outDB' in
              (outDB'', mkCall query insertValues false :: calls, r)
        | Err e => (outDB, [], Err e)
        | Panic f => (outDB, [], Panic f)
        end
  end.

(** [processPage], the part of the loop body that decodes the cell at
    [cellOffset]: [None] is a [continue], [Some (rowID, values)] the row
    handed to [tryRecoverRow]. *)
Definition decodeCell (pageData : list byte) (cellOffset : Z)
  : outcome (option (Z * list Value)) :=
  do cell <- sliceFrom pageData cellOffset;
  do (payloadSize, n) <- readVarint cell;
  if n =? 0 then Ok None
  else
    do rest <- sliceFrom cell n;
    do (rowID, n2) <- readVarint rest;
    if n2 =? 0 then Ok None
    else
      let totalHeaderSize := n + n2 in
      if len cell - totalHeaderSize <? int payloadSize then Ok None
      else
        do payload <-
          slice cell totalHeaderSize (totalHeaderSize + int payloadSize);
        match parseRecord payload with
        | Ok values => Ok (Some (rowID, values))
        | Err _ => Ok None
        | Panic f => Panic f
        end.

(** [processPage], the loop [for i := 0; i < int(numCells); i++] with
    [left] the iterations still to run.  The result lists, per row handed
    to [tryRecoverRow], the [Exec] calls made for it. *)
Fixpoint cellLoop (left : nat) (pageData : list byte) (headerOffset i : Z)
    (tables : list TableInfo) (outDB : DB)
  : DB * list (list call) * outcome unit :=
  match left with
  | O => (outDB, [], Ok tt)
  | S left' =>
      let ptrOffset := headerOffset + 8 + i * 2 in
      if len pageData <? ptrOffset + 2 then (outDB, [], Ok tt)
      else
        match (do p <- slice pageData ptrOffset (ptrOffset + 2);
               BigEndian_Uint16 p) with
        | Ok cellOffset =>
            if len pageData <=? int cellOffset then
              cellLoop left' pageData headerOffset (i + 1) tables outDB
            else
              match decodeCell pageData cellOffset with
              | Ok None =>
                  cellLoop left' pageData headerOffset (i + 1) tables outDB
              | Ok (Some (rowID, values)) =>
                  let '(outDB', calls, r) :=
                    tryRecoverRow rowID values tables outDB in
                  match r with
                  | Ok _ =>
                      let '(outDB'', rows, r') :=
                        cellLoop left' pageData headerOffset (i + 1)
                          tables outDB' in
                      (outDB'', calls :: rows, r')
                  | _ => (outDB', [calls], r)
                  end
              | Err e => (outDB, [], Err e)
              | Panic f => (outDB, [], Panic f)
              end
        | Err e => (outDB, [], Err e)
        | Panic f => (outDB, [], Panic f)
        end
  end.

(** [processPage]: [Ok tt] is [return nil]. *)
Definition processPage (pageData : list byte) (pageIndex : Z)
    (tables : list TableInfo) (outDB : DB)
  : DB * list (list call) * outcome unit :=
  let headerOffset := if pageIndex =? 0 then 100 else 0 in
  if len pageData <=? headerOffset then (outDB, [], Ok tt)
  else
    match index pageData headerOffset with
    | Ok flag =>
        if negb (byteZ flag =? 0x0D) then (outDB, [], Ok tt)
        else
          match (do p <- slice pageData (headerOffset + 3) (headerOffset + 5);
                 BigEndian_Uint16 p) with
          | Ok numCells =>
              cellLoop (Z.to_nat (int numCells)) pageData headerOffset 0
                tables outDB
          | Err e => (outDB, [], Err e)
          | Panic f => (outDB, [], Panic f)
          end
    | Err e => (outDB, [], Err e)
    | Panic f => (outDB, [], Panic f)
    end.

End Scanner.

(** ** Definitions used to state the properties *)

(** A continuation byte of a varint. *)
Definition highBit (b : byte) : Prop := 0x80 <= byteZ b.

(** The values a 63-bit varint can take. *)
Definition u63 (t : Z) : Prop := 0 <= t < 2 ^ 63.

(** Big-endian unsigned reading of a byte string, most significant byte
    first. *)
Definition beUint (bs : list byte) : Z :=
  fold_left (fun acc b => acc * 256 + byteZ b) bs 0.

(** The serial-type table of the record format: the number of body bytes
    of a code ([None] for the reserved codes 10 and 11) ... *)
Definition serialWidth (code : Z) : option Z :=
  match code with
  | 0 | 8 | 9 => Some 0
  | 1 => Some 1
  | 2 => Some 2
  | 3 => Some 3
  | 4 => Some 4
  | 5 => Some 6
  | 6 | 7 => Some 8
  | 10 | 11 => None
  | _ => if Z.even code then Some ((code - 12) / 2)
         else Some ((code - 13) / 2)
  end.

(** ... and the value its body bytes stand for. *)
Definition serialValue (code : Z) (body : list byte) : Value :=
  match code with
  | 0 => VNull
  | 1 | 2 | 3 | 4 | 5 | 6 => VInt (signed (8 * len body) (beUint body))
  | 7 => VFloat (Float64frombits (beUint body))
  | 8 => VInt 0
  | 9 => VInt 1
  | _ => if Z.even code then VBlob body else VText body
  end.

(** The insert vector of the dispatch rule, value by value: the rowid, as a
    signed 64-bit integer, in place of a null under a key column. *)
Definition substituteRowID (isKey : ColumnInfo -> bool) (rowID : Z)
    (col : ColumnInfo) (v : Value) : Value :=
  if isKey col then
    match v with
    | VNull => VInt (signed 64 rowID)
    | _ => v
    end
  else v.

Definition insertVector (isKey : ColumnInfo -> bool) (rowID : Z)
    (cols : list ColumnInfo) (values : list Value) : list Value :=
  zip_with (substituteRowID isKey rowID) cols values.

(** The upper-case ASCII letters. *)
Definition isUpperLetter (b : Z) : bool := (0x41 <=? b) && (b <=? 0x5A).

(** The byte [x] is the byte [u] of a word or, when [u] is an upper-case
    letter, the same letter in lower case. *)
Definition letterOf (u x : Z) : bool :=
  (x =? u) || (isUpperLetter u && (x =? u + 0x20)).

(** The bytes [s] spell the upper-case word [word] up to the case of its
    letters.  With [dotless] set, the two bytes 0xC4 0xB1 (the UTF-8
    encoding of U+0131, the dotless small i, whose upper case is I) are
    taken for an I as well. *)
Fixpoint spells (dotless : bool) (word s : list Z) : bool :=
  match word with
  | [] => match s with [] => true | _ => false end
  | u :: word' =>
      match s with
      | [] => false
      | x :: s' =>
          (letterOf u x && spells dotless word' s')
          || (dotless && (u =? 0x49) && (x =? 0xC4)
              && match s' with
                 | y :: s'' => (y =? 0xB1) && spells dotless word' s''
                 | [] => false
                 end)
      end
  end.

(** A string equals an upper-case word case-insensitively. *)
Definition eqIgnoreCase (s word : string) : bool :=
  spells false (stringBytes word) (stringBytes s).

(** The same, a dotless i also counting as an I. *)
Definition eqIgnoreCaseDotless (s word : string) : bool :=
  spells true (stringBytes word) (stringBytes s).

(** The columns of the dispatch rule as the claim words it: the key flag
    is set and the declared type is "INTEGER" case-insensitively ... *)
Definition integerKey (col : ColumnInfo) : bool :=
  (col_Pk col =? 1) && eqIgnoreCase (col_Type col) "INTEGER".

(** ... and the same with the dotless i. *)
Definition integerKeyDotless (col : ColumnInfo) : bool :=
  (col_Pk col =? 1) && eqIgnoreCaseDotless (col_Type col) "INTEGER".

(** What the dispatch rule needs of the Unicode case tables: the upper
    case of U+0131 is I, and no other rune above the ASCII range has an
    ASCII upper case, the long s (U+017F), which becomes S, apart. *)
Definition upperCaseFacts (To_UpperCase : Z -> Z) : Prop :=
  To_UpperCase 0x131 = 0x49
  /\ forall r, RuneSelf <= r -> r <> 0x131 ->
       To_UpperCase r = 0x53 \/ RuneSelf <= To_UpperCase r.

(** Where the B-tree header of a page starts: behind the 100-byte file
    header on the first page. *)
Definition headerOffsetOf (pageIndex : Z) : Z :=
  if pageIndex =? 0 then 100 else 0.

(** Sink calls of a page: every [Exec] made, in order. *)
Definition sinkCalls (rows : list (list call)) : list call := concat rows.

(** The successful ones among some calls. *)
Definition placed (calls : list call) : list call :=
  filter (fun c => call_ok c = true) calls.

(** What one row may cost the sink: at most one call per schema, at most
    one of them successful. *)
Definition oneAttempt (tables : list TableInfo) (calls : list call) : Prop :=
  (length calls <= length tables)%nat /\ (length (placed calls) <= 1)%nat.

(** The faults that are an access outside the slice. *)
Definition outsideSlice (f : fault) : bool :=
  match f with
  | IndexOutOfRange _ _ | SliceBeyondCap _ _ | SliceBeyondLen _ _ => true
  | SliceLowAboveHigh _ _ => false
  end.

(** A run that ends by returning [nil] or in the inverted-bounds fault of
    [parseRecord] (header length below the width of its own varint). *)
Definition nilOrInverted (r : outcome unit) : Prop :=
  r = Ok tt
  \/ exists lo hi, r = Panic (SliceLowAboveHigh lo hi) /\ 0 <= hi /\ hi < lo /\ lo <= 9.

(** ** Concrete inputs *)

(** A sink that refuses every statement on table ["a"] and accepts the
    others; its state counts the rows stored. *)
Definition pickySink (db : Z) (query : string) (args : list Value)
  : Z * bool :=
  if String.prefix "INSERT OR IGNORE INTO a " query then (db, false)
  else (db + 1, true).

(** A sink that accepts every statement and records it. *)
Definition recordingSink (db : list (string * list Value)) (query : string)
    (args : list Value) : list (string * list Value) * bool :=
  (db ++ [(query, args)], true).

Definition t_a : TableInfo :=
  mkTableInfo "a" [mkColumnInfo "id" "integer" 1; mkColumnInfo "name" "TEXT" 0].
Definition t_b : TableInfo :=
  mkTableInfo "b" [mkColumnInfo "id" "Integer" 1; mkColumnInfo "v" "TEXT" 0].

(** The entries of the Unicode case tables that end in an ASCII letter,
    U+0131 (dotless i) to I and U+017F (long s) to S; the other runes are
    left as they are. *)
Definition dotlessAndLongS (r : Z) : Z :=
  if r =? 0x131 then 0x49 else if r =? 0x17F then 0x53 else r.

(** The type "integer" written with a dotless i: the bytes C4 B1 and
    "nteger". *)
Definition dotlessInteger : string := String "196" (String "177" "nteger").

(** A schema whose key column is declared with that type. *)
Definition t_dotless : TableInfo :=
  mkTableInfo "d"
    [mkColumnInfo "id" dotlessInteger 1; mkColumnInfo "v" "TEXT" 0].

(** A 512-byte leaf page with one cell (payload size 1, rowid 5) whose
    record is the single byte 0x00. *)
Definition badPage : list byte :=
  [x0d; x00; x00; x00; x01; x00; x00; x00; x00; x0a; x01; x05; x00]
  ++ repeat x00 499.

(** A 512-byte leaf page whose 200 cell pointers all lead to the cell at
    offset 506: payload size 4, rowid 7, record [(NULL, "a")]. *)
Definition crowdedPage : list byte :=
  [x0d; x00; x00; x00; xc8; x00; x00; x00]
  ++ concat (repeat [x01; xfa] 200)
  ++ repeat x00 98
  ++ [x04; x07; x03; x00; x0f; x61].

(** A 512-byte leaf page with three cells: rowids 1, 2, 3 and the records
    [(NULL, "a")], [(NULL, "bb")], [(NULL, "ccc")]. *)
Definition healthyPage : list byte :=
  [x0d; x00; x00; x00; x03; x01; xeb; x00;
   x01; xeb; x01; xf1; x01; xf8]
  ++ repeat x00 477
  ++ [x04; x01; x03; x00; x0f; x61]
  ++ [x05; x02; x03; x00; x11; x62; x62]
  ++ [x06; x03; x03; x00; x13; x63; x63; x63].

(** A page of 4096 zero bytes. *)
Definition zeroPage : list byte := repeat x00 4096.

Definition x80x8 : list byte := [x80; x80; x80; x80; x80; x80; x80; x80].

(** ** Further definitions used to state properties *)

(** The number seven-bit groups stand for, most significant group first:
    each byte gives its low seven bits. *)
Definition low7 (bs : list byte) : Z :=
  fold_left (fun acc b => acc * 128 + byteZ b mod 128) bs 0.

(** One column of a record as it lies in a payload: the bytes of its
    serial-type varint, the code they stand for and the bytes of its
    body. *)
Record field : Type := mkField
  { fld_enc : list byte;
    fld_code : Z;
    fld_body : list byte }.

(** The varint bytes decode to the code and to nothing more, and the body
    has the width the table gives the code. *)
Definition wellFormedField (f : field) : Prop :=
  fld_enc f <> []
  /\ readVarint (fld_enc f) = Ok (fld_code f, len (fld_enc f))
  /\ serialWidth (fld_code f) = Some (len (fld_body f)).

Definition fieldValue (f : field) : Value :=
  serialValue (fld_code f) (fld_body f).

(** The columns of the record [(5, "a")]: an 8-bit integer and a one-byte
    text. *)
Definition twoFields : list field :=
  [mkField [x01] 1 [x05]; mkField [x0f] 15 [x61]].

(** What a sink call made for a row carries: the statement of a schema
    of the row's arity and, position by position, the rowid as a signed
    64-bit integer where the row has a null under a key column, and the
    row's own value everywhere else. *)
Definition offeredTo (isKey : ColumnInfo -> bool) (rowID : Z)
    (values : list Value) (tables : list TableInfo) (c : call) : Prop :=
  exists table,
    In table tables
    /\ len (tbl_Columns table) = len values
    /\ call_query c = insertQuery (tbl_Name table) values
    /\ length (call_args c) = length values
    /\ forall (i : nat) (a : Value),
         call_args c !! i = Some a ->
         exists col v,
           tbl_Columns table !! i = Some col
           /\ values !! i = Some v
           /\ ((v = VNull /\ isKey col = true
                /\ a = VInt (signed 64 rowID))
               \/ ((v <> VNull \/ isKey col = false) /\ a = v)).

(** A schema with a single column. *)
Definition t_one : TableInfo := mkTableInfo "one" [mkColumnInfo "x" "TEXT" 0].

(** ** The read loop of [Run] and the demo's [copyAndWipe] *)

(** [f.Read(buffer)] of an [*os.File] on a regular file of which [rest] is
    still unread: the number of bytes read, whether the error is [io.EOF],
    the buffer and the unread part afterwards.  A zero-length buffer reads
    nothing and reports no error; at the end of the file nothing is read
    and the error is [io.EOF]; otherwise the buffer is filled from its
    start with as many bytes as are left, up to its length.  Other read
    errors are left out. *)
Definition Read (buffer rest : list byte)
  : Z * bool * list byte * list byte :=
  if len buffer =? 0 then (0, false, buffer, rest)
  else if len rest =? 0 then (0, true, buffer, rest)
  else
    let n := Z.min (len buffer) (len rest) in
    (n, false,
     take (Z.to_nat n) rest ++ drop (Z.to_nat n) buffer,
     drop (Z.to_nat n) rest).

(** [f.WriteAt(b, off)] on a regular file with the given content: the
    content afterwards, a gap before [off] being filled with zero bytes; a
    negative offset is an error. *)
Definition WriteAt (content b : list byte) (off : Z) : outcome (list byte) :=
  if off <? 0 then Err "negative offset"
  else
    Ok (take (Z.to_nat off)
          (content ++ repeat x00 (Z.to_nat (off - len content)))
        ++ b ++ drop (Z.to_nat (off + len b)) content).

(** [copyAndWipe] of the demo, on the content of [src]: the content of
    [dst] when no file operation fails. *)
Definition copyAndWipe (src : list byte) (offset : Z) : outcome (list byte) :=
  let dst := src in
  let zeros := repeat x00 4096 in
  WriteAt dst zeros offset.

Section RunLoop.

Variable DB : Type.
Variable Exec : DB -> string -> list Value -> DB * bool.
Variable ToUpper : string -> string.

(** [Run], the loop [for { n, err := f.Read(buffer) ... }] once the
    schemas are loaded and the output database is open; [rounds] bounds
    the iterations and [None] says that the loop has not ended within
    them.  A page error is printed and the loop goes on; a panic of
    [processPage] ends the run. *)
Fixpoint Run_loop (rounds : nat) (PageSize : Z) (buffer rest : list byte)
    (pageIndex : Z) (tables : list TableInfo) (outDB : DB)
  : option (DB * list (list call) * outcome unit) :=
  match rounds with
  | O => None
  | S rounds' =>
      let '(n, eof, buffer', rest') := Read buffer rest in
      if eof then Some (outDB, [], Ok tt)
      else if negb (n =? PageSize) then Some (outDB, [], Ok tt)
      else
        let '(outDB', rows, r) :=
          processPage DB Exec ToUpper buffer' pageIndex tables outDB in
        match r with
        | Panic f => Some (outDB', rows, Panic f)
        | _ =>
            match Run_loop rounds' PageSize buffer' rest' (pageIndex + 1)
                    tables outDB' with
            | Some (outDB'', rows', r') => Some (outDB'', rows ++ rows', r')
            | None => None
            end
        end
  end.

(** [Run] from [buffer := make([]byte, cfg.PageSize)] on, for a page size
    that is not negative, over the content of the corrupt file. *)
Definition Run_pages (rounds : nat) (PageSize : Z) (file : list byte)
    (tables : list TableInfo) (outDB : DB)
  : option (DB * list (list call) * outcome unit) :=
  Run_loop rounds PageSize (repeat x00 (Z.to_nat PageSize)) file 0
    tables outDB.

(** Scanning a list of pages one after the other, numbered from
    [pageIndex], up to the first panic. *)
Fixpoint scanPages (pages : list (list byte)) (pageIndex : Z)
    (tables : list TableInfo) (outDB : DB)
  : DB * list (list call) * outcome unit :=
  match pages with
  | [] => (outDB, [], Ok tt)
  | page :: pages' =>
      let '(outDB', rows, r) :=
        processPage DB Exec ToUpper page pageIndex tables outDB in
      match r with
      | Panic f => (outDB', rows, Panic f)
      | _ =>
          let '(outDB'', rows', r') :=
            scanPages pages' (pageIndex + 1) tables outDB' in
          (outDB'', rows ++ rows', r')
      end
  end.

End RunLoop.

(** A file of three 512-byte pages and five stray bytes. *)
Definition threePages : list (list byte) := [healthyPage; crowdedPage; badPage].

(** A 4096-byte leaf page with the three cells of [healthyPage]. *)
Definition healthyPage4k : list byte :=
  [x0d; x00; x00; x00; x03; x0f; xeb; x00;
   x0f; xeb; x0f; xf1; x0f; xf8]
  ++ repeat x00 4061
  ++ [x04; x01; x03; x00; x0f; x61]
  ++ [x05; x02; x03; x00; x11; x62; x62]
  ++ [x06; x03; x03; x00; x13; x63; x63; x63].

(** Three 4096-byte pages. *)
Definition threePages4k : list (list byte) :=
  [zeroPage; healthyPage4k; healthyPage4k].

(** The schemas a row can go to: those of its arity, in schema order. *)
Definition candidates (values : list Value) (tables : list TableInfo)
  : list TableInfo :=
  filter (fun table => len (tbl_Columns table) = len values) tables.

(** * Properties *)

(** ** Worked examples *)

(** A healthy leaf page of [t(id INTEGER PRIMARY KEY, name TEXT)] with the
    rows (1, "a"), (2, "bb"), (3, "ccc"): three inserts, the null of the
    key column replaced by the rowid. *)
Example healthy_page_recovered :
  processPage _ recordingSink asciiToUpper healthyPage 1 [t_a] []
  = ([("INSERT OR IGNORE INTO a VALUES (?, ?)", [VInt 1; VText [x61]]);
      ("INSERT OR IGNORE INTO a VALUES (?, ?)", [VInt 2; VText [x62; x62]]);
      ("INSERT OR IGNORE INTO a VALUES (?, ?)",
       [VInt 3; VText [x63; x63; x63]])],
     [[mkCall "INSERT OR IGNORE INTO a VALUES (?, ?)"
         [VInt 1; VText [x61]] true];
      [mkCall "INSERT OR IGNORE INTO a VALUES (?, ?)"
         [VInt 2; VText [x62; x62]] true];
      [mkCall "INSERT OR IGNORE INTO a VALUES (?, ?)"
         [VInt 3; VText [x63; x63; x63]] true]],
     Ok tt).
Proof. vm_compute. reflexivity. Qed.

(** A record with an 8-bit integer and a one-byte text. *)
Example record_int_text :
  parseRecord [x03; x01; x0f; x05; x61] = Ok [VInt 5; VText [x61]].
Proof. vm_compute. reflexivity. Qed.

(** A record with zero columns decodes to the empty vector. *)
Example record_no_columns : parseRecord [x01] = Ok [].
Proof. vm_compute. reflexivity. Qed.

(** A header length beyond the payload is a decode error. *)
Example record_header_too_long :
  parseRecord [x05; x01] = Err "invalid header length".
Proof. vm_compute. reflexivity. Qed.

(** Varints of one and two bytes. *)
Example varint_one_byte : readVarint [x7f; xff] = Ok (127, 1).
Proof. vm_compute. reflexivity. Qed.

Example varint_two_bytes : readVarint [x81; x00] = Ok (128, 2).
Proof. vm_compute. reflexivity. Qed.

(** With two schemas of the same arity the first that accepts wins; the
    refused attempt is still a sink call. *)
Example dispatch_second_schema :
  tryRecoverRow Z pickySink asciiToUpper 7 [VNull; VText [x61]] [t_a; t_b] 0
  = (1,
     [mkCall "INSERT OR IGNORE INTO a VALUES (?, ?)"
        [VInt 7; VText [x61]] false;
      mkCall "INSERT OR IGNORE INTO b VALUES (?, ?)"
        [VInt 7; VText [x61]] true],
     Ok tt).
Proof. vm_compute. reflexivity. Qed.

(** [strings.ToUpper] on a type in mixed case and on one written with a
    dotless i. *)
Example upper_mixed_case :
  strings_ToUpper dotlessAndLongS "Integer" = "INTEGER".
Proof. reflexivity. Qed.

Example upper_dotless_i :
  strings_ToUpper dotlessAndLongS dotlessInteger = "INTEGER".
Proof. reflexivity. Qed.

(** ** Machine integers and bytes *)

Lemma byteZ_range (b : byte) : 0 <= byteZ b < 256.
Proof.
  unfold byteZ. pose proof (Byte.to_N_bounded b). lia.
Qed.

Lemma byteZ_inj (a b : byte) : byteZ a = byteZ b -> a = b.
Proof.
  unfold byteZ. intros H. apply N2Z.inj in H.
  pose proof (Byte.of_to_N a) as Ha. pose proof (Byte.of_to_N b) as Hb.
  rewrite H in Ha. congruence.
Qed.

Lemma signed_small (w z : Z) :
  0 < w -> - 2 ^ (w - 1) <= z < 2 ^ (w - 1) -> signed w z = z.
Proof.
  intros Hw Hz. unfold signed.
  assert (Hp : 2 ^ w = 2 * 2 ^ (w - 1)).
  { rewrite <- Z.pow_succ_r by lia. f_equal. lia. }
  destruct (Z.ltb_spec z 0) as [Hneg | Hpos].
  - assert (Hm : z mod 2 ^ w = z + 2 ^ w).
    { symmetry. apply Z.mod_unique with (q := -1); lia. }
    rewrite Hm. destruct (Z.ltb_spec (z + 2 ^ w) (2 ^ (w - 1))); lia.
  - rewrite Z.mod_small by lia.
    destruct (Z.ltb_spec z (2 ^ (w - 1))); lia.
Qed.

Lemma signed_range (w z : Z) :
  0 < w -> - 2 ^ (w - 1) <= signed w z < 2 ^ (w - 1).
Proof.
  intros Hw. unfold signed.
  assert (Hp : 2 ^ w = 2 * 2 ^ (w - 1)).
  { rewrite <- Z.pow_succ_r by lia. f_equal. lia. }
  assert (0 < 2 ^ (w - 1)) by (apply Z.pow_pos_nonneg; lia).
  pose proof (Z.mod_pos_bound z (2 ^ w) ltac:(lia)).
  destruct (Z.ltb_spec (z mod 2 ^ w) (2 ^ (w - 1))); lia.
Qed.

Lemma int_small (z : Z) : 0 <= z < 2 ^ 63 -> int z = z.
Proof. intros H. apply signed_small; [lia | simpl Z.sub; lia]. Qed.

Lemma i64_small (z : Z) : - 2 ^ 63 <= z < 2 ^ 63 -> i64 z = z.
Proof. intros H. apply signed_small; [lia | simpl Z.sub; lia]. Qed.

(** Bits that do not overlap add up: [q * 2^k | lo = q * 2^k + lo]. *)
Lemma lor_disjoint (q lo k : Z) :
  0 <= k -> 0 <= lo < 2 ^ k -> Z.lor (q * 2 ^ k) lo = q * 2 ^ k + lo.
Proof.
  intros Hk Hlo.
  assert (Hland : Z.land (q * 2 ^ k) lo = 0).
  { apply Z.bits_inj'. intros n Hn.
    rewrite Z.land_spec, Z.bits_0.
    destruct (Z.ltb_spec n k) as [Hlt | Hge].
    - rewrite <- Z.shiftl_mul_pow2 by lia.
      rewrite Z.shiftl_spec_low by lia. reflexivity.
    - rewrite <- (Z.mod_small lo (2 ^ k)) by lia.
      rewrite Z.mod_pow2_bits_high by lia. apply andb_false_r. }
  rewrite <- Z.lxor_lor by exact Hland.
  symmetry. apply Z.add_nocarry_lxor. exact Hland.
Qed.

Lemma lor_disjoint_l (q lo k : Z) :
  0 <= k -> 0 <= lo < 2 ^ k -> Z.lor lo (q * 2 ^ k) = lo + q * 2 ^ k.
Proof.
  intros Hk Hlo. rewrite Z.lor_comm, lor_disjoint by assumption. lia.
Qed.

(** ** Indexing and slicing *)

Lemma len_nonneg {A} (s : list A) : 0 <= len s.
Proof. unfold len. lia. Qed.

Lemma len_cons {A} (x : A) (s : list A) : len (x :: s) = len s + 1.
Proof. unfold len. simpl. lia. Qed.

Lemma len_app {A} (s1 s2 : list A) : len (s1 ++ s2) = len s1 + len s2.
Proof. unfold len. rewrite length_app. lia. Qed.

Lemma len_drop {A} (s : list A) (n : Z) :
  0 <= n <= len s -> len (drop (Z.to_nat n) s) = len s - n.
Proof. unfold len. intros H. rewrite length_drop. lia. Qed.

Lemma len_take {A} (s : list A) (n : Z) :
  0 <= n <= len s -> len (take (Z.to_nat n) s) = n.
Proof. unfold len. intros H. rewrite length_take. lia. Qed.

Lemma index_lookup {A} (s : list A) (i : Z) (x : A) :
  0 <= i -> s !! Z.to_nat i = Some x -> index s i = Ok x.
Proof.
  intros Hi Hx. unfold index.
  pose proof (lookup_lt_Some _ _ _ Hx) as Hlt.
  destruct (Z.ltb_spec i 0); [lia |].
  destruct (Z.leb_spec (len s) i) as [Hle | _]; [unfold len in Hle; lia |].
  simpl. rewrite Hx. reflexivity.
Qed.

Lemma index_in_range {A} (s : list A) (i : Z) :
  0 <= i < len s -> exists x, index s i = Ok x /\ s !! Z.to_nat i = Some x.
Proof.
  intros Hi.
  destruct (lookup_lt_is_Some_2 s (Z.to_nat i)) as [x Hx].
  { unfold len in Hi. lia. }
  exists x. split; [apply index_lookup; [lia | exact Hx] | exact Hx].
Qed.

Lemma sliceFrom_in_range {A} (s : list A) (lo : Z) :
  0 <= lo <= len s -> sliceFrom s lo = Ok (drop (Z.to_nat lo) s).
Proof.
  intros H. unfold sliceFrom.
  destruct (Z.ltb_spec lo 0); [lia |].
  destruct (Z.ltb_spec (len s) lo); [lia |]. reflexivity.
Qed.

Lemma slice_in_range {A} (s : list A) (lo hi : Z) :
  0 <= lo <= hi -> hi <= len s ->
  slice s lo hi = Ok (take (Z.to_nat (hi - lo)) (drop (Z.to_nat lo) s)).
Proof.
  intros H1 H2. unfold slice.
  destruct (Z.ltb_spec hi 0); [lia |].
  destruct (Z.ltb_spec (len s) hi); [lia |].
  destruct (Z.ltb_spec lo 0); [lia |].
  destruct (Z.ltb_spec hi lo); [lia |]. reflexivity.
Qed.

(** ** readVarint *)

(** One round of the loop appends seven bits: no bit is lost while fewer
    than eight rounds have run. *)
Lemma varint_round (v : Z) (b : byte) :
  0 <= v < 2 ^ 56 ->
  Z.lor (u64 (Z.shiftl v 7)) (u64 (Z.land (byteZ b) 0x7f))
  = v * 128 + byteZ b mod 128.
Proof.
  intros Hv. pose proof (byteZ_range b) as Hb.
  change 0x7f with (Z.ones 7). rewrite Z.land_ones by lia.
  rewrite Z.shiftl_mul_pow2 by lia.
  pose proof (Z.mod_pos_bound (byteZ b) (2 ^ 7) ltac:(lia)) as Hm.
  unfold u64. rewrite !Z.mod_small by lia.
  rewrite lor_disjoint by lia. change (2 ^ 7) with 128. lia.
Qed.

(** What the loop returns when entered at index [i] with [9 - i] rounds to
    run. *)
Lemma readVarint_loop_spec (left : nat) (buf : list byte) (i v : Z) :
  0 <= i -> i + Z.of_nat left = 9 -> 0 <= v < 2 ^ (7 * i) ->
  exists v' n,
    readVarint_loop left buf i v = Ok (v', n)
    /\ 0 <= v' < 2 ^ 63
    /\ 0 <= n <= 9 /\ n <= len buf
    /\ (n = 0 <-> len buf < 9 /\ Forall highBit (drop (Z.to_nat i) buf))
    /\ (9 <= len buf ->
        Forall highBit (take (Z.to_nat (8 - i)) (drop (Z.to_nat i) buf)) ->
        n = 9).
Proof.
  revert i v. induction left as [| left IH]; intros i v Hi Hleft Hv.
  - assert (i = 9) by lia. subst i. simpl.
    destruct (Z.leb_spec 9 (len buf)) as [Hlen | Hlen].
    + exists v, 9. split; [reflexivity |]. split; [lia |].
      split; [lia |]. split; [lia |]. split; [| reflexivity].
      split; [lia |]. intros [? _]. lia.
    + exists 0, 0. split; [reflexivity |]. split; [lia |].
      split; [lia |]. split; [apply len_nonneg |]. split; [| lia].
      split; [| reflexivity]. intros _. split; [lia |].
      rewrite drop_ge; [constructor |]. unfold len in Hlen. lia.
  - simpl. destruct (Z.leb_spec (len buf) i) as [Hlen | Hlen].
    + exists 0, 0. split; [reflexivity |]. split; [lia |].
      split; [lia |]. split; [apply len_nonneg |]. split; [| lia].
      split; [| reflexivity]. intros _. split; [lia |].
      rewrite drop_ge; [constructor |]. unfold len in Hlen. lia.
    + destruct (index_in_range buf i ltac:(lia)) as (b & Hidx & Hb).
      rewrite Hidx. simpl.
      assert (Hv56 : 0 <= v < 2 ^ 56).
      { split; [lia |]. eapply Z.lt_le_trans; [exact (proj2 Hv) |].
        apply Z.pow_le_mono_r; lia. }
      rewrite varint_round by exact Hv56.
      pose proof (byteZ_range b) as Hbr.
      pose proof (Z.mod_pos_bound (byteZ b) 128 ltac:(lia)) as Hm.
      assert (Hv' : 0 <= v * 128 + byteZ b mod 128 < 2 ^ (7 * (i + 1))).
      { replace (7 * (i + 1)) with (7 * i + 7) by lia.
        rewrite Z.pow_add_r by lia. change (2 ^ 7) with 128. lia. }
      assert (Hdrop : drop (Z.to_nat i) buf
                      = b :: drop (Z.to_nat (i + 1)) buf).
      { replace (Z.to_nat (i + 1)) with (S (Z.to_nat i)) by lia.
        apply drop_S. exact Hb. }
      destruct (Z.ltb_spec (byteZ b) 0x80) as [Hlow | Hhigh].
      * exists (v * 128 + byteZ b mod 128), (i + 1).
        split; [reflexivity |]. split.
        { split; [lia |]. eapply Z.lt_le_trans; [exact (proj2 Hv') |].
          apply Z.pow_le_mono_r; lia. }
        split; [lia |]. split; [lia |]. split.
        { split; [lia |]. intros [_ Hall]. rewrite Hdrop in Hall.
          apply Forall_cons in Hall as [Hh _]. unfold highBit in Hh. lia. }
        intros Hlen9 Hall.
        destruct (Z.eq_dec i 8) as [-> | Hne]; [reflexivity |].
        replace (Z.to_nat (8 - i)) with (S (Z.to_nat (7 - i))) in Hall
          by lia.
        rewrite Hdrop in Hall. simpl in Hall.
        apply Forall_cons in Hall as [Hh _]. unfold highBit in Hh. lia.
      * destruct (IH (i + 1) (v * 128 + byteZ b mod 128))
          as (v' & n & Heq & Hr & Hn & Hnl & Hz & H9); try lia.
        exists v', n. rewrite Heq.
        split; [reflexivity |]. split; [exact Hr |].
        split; [exact Hn |]. split; [exact Hnl |]. split.
        { split.
          - intros Hn0. apply Hz in Hn0 as [Hl Hn0]. split; [exact Hl |].
            rewrite Hdrop. constructor; [exact Hhigh | exact Hn0].
          - intros [Hl Hall]. apply Hz. split; [exact Hl |].
            rewrite Hdrop in Hall. apply Forall_cons in Hall. tauto. }
        intros Hlen9 Hall.
        destruct (Z.eq_dec i 8) as [-> | Hne].
        { apply H9; [exact Hlen9 |]. simpl. constructor. }
        apply H9; [exact Hlen9 |].
        replace (Z.to_nat (8 - i)) with (S (Z.to_nat (8 - (i + 1))))
          in Hall by lia.
        rewrite Hdrop in Hall. simpl in Hall.
        apply Forall_cons in Hall. tauto.
Qed.

(** [readVarint] always returns: a value below [2^63] and a width between
    0 and 9 that does not exceed the buffer. *)
Lemma readVarint_total (buf : list byte) :
  exists v n, readVarint buf = Ok (v, n)
    /\ 0 <= v < 2 ^ 63 /\ 0 <= n <= 9 /\ n <= len buf.
Proof.
  destruct (readVarint_loop_spec 9 buf 0 0)
    as (v & n & Heq & Hv & Hn & Hl & _); try lia.
  exists v, n. unfold readVarint. rewrite Heq. repeat split; lia.
Qed.

(** ** parseSerialType *)

Ltac index_at := 
  repeat match goal with
  | |- context [index ?s ?i] =>
      rewrite (index_lookup s i _ ltac:(lia) eq_refl)
  end; cbn [bind].

Ltac byte_ranges :=
  repeat match goal with
  | b : byte |- _ =>
      lazymatch goal with
      | _ : 0 <= byteZ b < 256 |- _ => fail
      | _ => pose proof (byteZ_range b)
      end
  end.

Ltac pow_consts :=
  change (2 ^ 7) with 128 in *;
  change (2 ^ 8) with 256 in *;
  change (2 ^ 16) with 65536 in *;
  change (2 ^ 24) with 16777216 in *;
  change (2 ^ 32) with 4294967296 in *;
  change (2 ^ 40) with 1099511627776 in *;
  change (2 ^ 48) with 281474976710656 in *;
  change (2 ^ 56) with 72057594037927936 in *;
  change (2 ^ 63) with 9223372036854775808 in *;
  change (2 ^ 64) with 18446744073709551616 in *.

Lemma BigEndian_Uint16_take (buf : list byte) :
  2 <= len buf -> BigEndian_Uint16 buf = Ok (beUint (take 2 buf)).
Proof.
  intros Hlen. destruct buf as [| b0 [| b1 rest]];
    try (unfold len in Hlen; simpl in Hlen; lia).
  unfold BigEndian_Uint16. index_at. byte_ranges.
  rewrite Z.shiftl_mul_pow2 by lia. unfold u16.
  rewrite Z.mod_small by (pow_consts; lia).
  rewrite lor_disjoint_l by (pow_consts; lia).
  cbn. rewrite take_0. cbn. f_equal. pow_consts. lia.
Qed.

(** [lo | b << k] chains of the big-endian readers, innermost first. *)
Ltac lor_chain :=
  repeat match goal with
  | |- context [Z.shiftl ?b ?k] => rewrite (Z.shiftl_mul_pow2 b k) by lia
  end;
  unfold u16, u32, u64;
  repeat match goal with
  | |- context [(?b * 2 ^ ?k) mod ?m] =>
      rewrite (Z.mod_small (b * 2 ^ k) m) by (pow_consts; lia)
  end;
  repeat match goal with
  | |- context [Z.lor ?lo (?b * 2 ^ ?k)] =>
      rewrite (lor_disjoint_l b lo k) by (pow_consts; lia)
  end.

Lemma BigEndian_Uint32_take (buf : list byte) :
  4 <= len buf -> BigEndian_Uint32 buf = Ok (beUint (take 4 buf)).
Proof.
  intros Hlen. destruct buf as [| b0 [| b1 [| b2 [| b3 rest]]]];
    try (unfold len in Hlen; simpl in Hlen; lia).
  unfold BigEndian_Uint32. index_at. byte_ranges. lor_chain.
  cbn. rewrite take_0. cbn. f_equal. pow_consts. lia.
Qed.

Lemma BigEndian_Uint64_take (buf : list byte) :
  8 <= len buf -> BigEndian_Uint64 buf = Ok (beUint (take 8 buf)).
Proof.
  intros Hlen.
  destruct buf as [| b0 [| b1 [| b2 [| b3 [| b4 [| b5 [| b6 [| b7 rest]]]]]]]];
    try (unfold len in Hlen; simpl in Hlen; lia).
  unfold BigEndian_Uint64. index_at. byte_ranges. lor_chain.
  cbn. rewrite take_0. cbn. f_equal. pow_consts. lia.
Qed.

Lemma parseSerialType_ge12 (t : Z) (buf : list byte) :
  12 <= t ->
  parseSerialType t buf =
    if (12 <=? t) && (t mod 2 =? 0) then
      let n := int (u64 (t - 12) / 2) in
      if len buf <? n then Err "buffer too short for blob"
      else do b <- sliceTo buf n; Ok (VBlob b, n)
    else if (13 <=? t) && (t mod 2 =? 1) then
      let n := int (u64 (t - 13) / 2) in
      if len buf <? n then Err "buffer too short for string"
      else do s <- sliceTo buf n; Ok (VText s, n)
    else Err "unknown serial type".
Proof.
  intros Ht. destruct t as [| p | p]; [lia | | lia].
  do 4 (try destruct p as [p | p |]); try lia; reflexivity.
Qed.

Lemma serialWidth_ge12 (t : Z) :
  12 <= t ->
  serialWidth t = if Z.even t then Some ((t - 12) / 2)
                  else Some ((t - 13) / 2).
Proof.
  intros Ht. destruct t as [| p | p]; [lia | | lia].
  do 4 (try destruct p as [p | p |]); try lia; reflexivity.
Qed.

Lemma serialValue_ge12 (t : Z) (body : list byte) :
  12 <= t ->
  serialValue t body = if Z.even t then VBlob body else VText body.
Proof.
  intros Ht. destruct t as [| p | p]; [lia | | lia].
  do 4 (try destruct p as [p | p |]); try lia; reflexivity.
Qed.

Ltac norm_take :=
  repeat match goal with
  | |- context [Z.to_nat (Zpos ?p)] =>
      let n := eval compute in (Z.to_nat (Zpos p)) in
      change (Z.to_nat (Zpos p)) with n
  end;
  rewrite ?firstn_cons, ?take_0.

Ltac short_buf Hlen := unfold len in Hlen; simpl in Hlen; lia.

Lemma i64_signed (w z : Z) : 0 < w <= 64 -> i64 (signed w z) = signed w z.
Proof.
  intros Hw. apply i64_small. pose proof (signed_range w z ltac:(lia)).
  assert (2 ^ (w - 1) <= 2 ^ 63) by (apply Z.pow_le_mono_r; lia). lia.
Qed.

Lemma i8_byte (b : byte) :
  i8 (byteZ b) = if byteZ b <? 128 then byteZ b else byteZ b - 256.
Proof.
  pose proof (byteZ_range b). unfold i8, signed.
  rewrite Z.mod_small by (pow_consts; lia). reflexivity.
Qed.

Lemma i64_byte (b : byte) : i64 (byteZ b) = byteZ b.
Proof. pose proof (byteZ_range b). apply i64_small. pow_consts. lia. Qed.

Lemma i8_range (b : byte) : -128 <= i8 (byteZ b) < 128.
Proof.
  rewrite i8_byte. byte_ranges. destruct (Z.ltb_spec (byteZ b) 128); lia.
Qed.

(** Code 3: the top byte is sign-extended before it is shifted. *)
Lemma sext24 (b0 b1 b2 : byte) :
  Z.lor (Z.lor (i64 (Z.shiftl (i64 (i8 (byteZ b0))) 16))
               (i64 (Z.shiftl (i64 (byteZ b1)) 8)))
        (i64 (byteZ b2))
  = signed 24 (beUint [b0; b1; b2]).
Proof.
  pose proof (i8_range b0) as Hs. pose proof (i8_byte b0) as Hs'.
  byte_ranges. set (s := i8 (byteZ b0)) in *.
  rewrite !i64_byte. rewrite (i64_small s) by (pow_consts; lia).
  rewrite !Z.shiftl_mul_pow2 by lia.
  rewrite (i64_small (s * 2 ^ 16)) by (pow_consts; lia).
  rewrite (i64_small (byteZ b1 * 2 ^ 8)) by (pow_consts; lia).
  rewrite (lor_disjoint s (byteZ b1 * 2 ^ 8) 16) by (pow_consts; lia).
  replace (s * 2 ^ 16 + byteZ b1 * 2 ^ 8)
    with ((s * 2 ^ 8 + byteZ b1) * 2 ^ 8) by (pow_consts; lia).
  rewrite lor_disjoint by (pow_consts; lia).
  cbn [beUint fold_left]. unfold signed.
  rewrite (Z.mod_small _ (2 ^ 24)) by (pow_consts; lia).
  change (2 ^ (24 - 1)) with 8388608. pow_consts.
  match goal with |- context [?x <? 8388608] =>
    destruct (Z.ltb_spec x 8388608) end;
  destruct (Z.ltb_spec (byteZ b0) 128); lia.
Qed.

(** Code 5: the same for 48 bits, the low four bytes read as a [uint32]. *)
Lemma sext48 (b0 b1 b2 b3 b4 b5 : byte) :
  Z.lor (Z.lor (i64 (Z.shiftl (i64 (i8 (byteZ b0))) 40))
               (i64 (Z.shiftl (i64 (byteZ b1)) 32)))
        (i64 (beUint [b2; b3; b4; b5]))
  = signed 48 (beUint [b0; b1; b2; b3; b4; b5]).
Proof.
  pose proof (i8_range b0) as Hs. pose proof (i8_byte b0) as Hs'.
  byte_ranges. set (s := i8 (byteZ b0)) in *.
  cbn [beUint fold_left].
  rewrite !i64_byte. rewrite (i64_small s) by (pow_consts; lia).
  rewrite !Z.shiftl_mul_pow2 by lia.
  rewrite (i64_small (s * 2 ^ 40)) by (pow_consts; lia).
  rewrite (i64_small (byteZ b1 * 2 ^ 32)) by (pow_consts; lia).
  rewrite (i64_small (_ + byteZ b5)) by (pow_consts; lia).
  rewrite (lor_disjoint s (byteZ b1 * 2 ^ 32) 40) by (pow_consts; lia).
  replace (s * 2 ^ 40 + byteZ b1 * 2 ^ 32)
    with ((s * 2 ^ 8 + byteZ b1) * 2 ^ 32) by (pow_consts; lia).
  rewrite lor_disjoint by (pow_consts; lia).
  unfold signed.
  rewrite (Z.mod_small _ (2 ^ 48)) by (pow_consts; lia).
  change (2 ^ (48 - 1)) with 140737488355328. pow_consts.
  match goal with |- context [?x <? 140737488355328] =>
    destruct (Z.ltb_spec x 140737488355328) end;
  destruct (Z.ltb_spec (byteZ b0) 128); lia.
Qed.

(** The serial-type table, code by code. *)
Lemma parseSerialType_table (t : Z) (buf : list byte) :
  0 <= t < 2 ^ 64 ->
  match serialWidth t with
  | Some w =>
      0 <= w /\
      if len buf <? w then exists e, parseSerialType t buf = Err e
      else parseSerialType t buf
           = Ok (serialValue t (take (Z.to_nat w) buf), w)
  | None => parseSerialType t buf = Err "unknown serial type"
  end.
Proof.
  intros Ht. pose proof (len_nonneg buf) as Hnn.
  assert (Hcases : t = 0 \/ t = 1 \/ t = 2 \/ t = 3 \/ t = 4 \/ t = 5 \/
                   t = 6 \/ t = 7 \/ t = 8 \/ t = 9 \/ t = 10 \/ t = 11 \/
                   12 <= t) by lia.
  destruct Hcases as [-> | [-> | [-> | [-> | [-> | [-> | [-> | [-> | [-> |
                     [-> | [-> | [-> | Hge]]]]]]]]]]]].
  - simpl. split; [lia |].
    destruct (Z.ltb_spec (len buf) 0); [lia | reflexivity].
  - simpl. split; [lia |].
    destruct (Z.ltb_spec (len buf) 1) as [Hlen | Hlen]; [eauto |].
    destruct buf as [| b0 rest]; [short_buf Hlen |].
    index_at. norm_take. unfold i8. rewrite i64_signed by lia.
    reflexivity.
  - simpl. split; [lia |].
    destruct (Z.ltb_spec (len buf) 2) as [Hlen | Hlen]; [eauto |].
    rewrite BigEndian_Uint16_take by lia. cbn [bind].
    rewrite len_take by lia. unfold i16. rewrite i64_signed by lia.
    reflexivity.
  - simpl. split; [lia |].
    destruct (Z.ltb_spec (len buf) 3) as [Hlen | Hlen]; [eauto |].
    destruct buf as [| b0 [| b1 [| b2 rest]]]; try short_buf Hlen.
    index_at. norm_take. rewrite sext24. reflexivity.
  - simpl. split; [lia |].
    destruct (Z.ltb_spec (len buf) 4) as [Hlen | Hlen]; [eauto |].
    rewrite BigEndian_Uint32_take by lia. cbn [bind].
    rewrite len_take by lia. unfold i32. rewrite i64_signed by lia.
    reflexivity.
  - simpl. split; [lia |].
    destruct (Z.ltb_spec (len buf) 6) as [Hlen | Hlen]; [eauto |].
    destruct buf as [| b0 [| b1 [| b2 [| b3 [| b4 [| b5 rest]]]]]];
      try short_buf Hlen.
    pose proof (len_nonneg rest) as Hrest.
    index_at. rewrite sliceFrom_in_range by (rewrite !len_cons; lia).
    cbn [bind]. change (Z.to_nat 2) with 2%nat. cbn [drop].
    rewrite BigEndian_Uint32_take by (rewrite !len_cons; lia).
    cbn [bind]. norm_take. rewrite sext48. reflexivity.
  - simpl. split; [lia |].
    destruct (Z.ltb_spec (len buf) 8) as [Hlen | Hlen]; [eauto |].
    rewrite BigEndian_Uint64_take by lia. cbn [bind].
    rewrite len_take by lia. change (8 * 8) with 64. reflexivity.
  - simpl. split; [lia |].
    destruct (Z.ltb_spec (len buf) 8) as [Hlen | Hlen]; [eauto |].
    rewrite BigEndian_Uint64_take by lia. reflexivity.
  - simpl. split; [lia |].
    destruct (Z.ltb_spec (len buf) 0); [lia | reflexivity].
  - simpl. split; [lia |].
    destruct (Z.ltb_spec (len buf) 0); [lia | reflexivity].
  - reflexivity.
  - reflexivity.
  - rewrite serialWidth_ge12, parseSerialType_ge12 by exact Hge.
    assert (Hval : forall body, serialValue t body
              = if t mod 2 =? 0 then VBlob body else VText body).
    { intros body. rewrite serialValue_ge12 by exact Hge.
      rewrite Zeven_mod. reflexivity. }
    rewrite Zeven_mod.
    destruct (Z.leb_spec 12 t); [| lia]. cbn [andb].
    destruct (Z.eqb_spec (t mod 2) 0) as [Hev | Hodd].
    + cbv zeta. unfold u64. rewrite (Z.mod_small (t - 12)) by (pow_consts; lia).
      assert (Hn : 0 <= (t - 12) / 2 < 2 ^ 63).
      { split; [apply Z.div_pos; lia |].
        apply Z.div_lt_upper_bound; pow_consts; lia. }
      rewrite int_small by exact Hn. split; [lia |].
      destruct (Z.ltb_spec (len buf) ((t - 12) / 2)); [eauto |].
      unfold sliceTo. rewrite slice_in_range by lia.
      cbn [bind]. rewrite Z.sub_0_r, Hval. reflexivity.
    + assert (Hone : t mod 2 = 1).
      { pose proof (Z.mod_pos_bound t 2 ltac:(lia)). lia. }
      destruct (Z.leb_spec 13 t) as [H13 | Hlt].
      2:{ assert (t = 12) by lia. subst t. discriminate Hone. }
      rewrite Hone. cbn [andb Z.eqb Pos.eqb].
      cbv zeta. unfold u64. rewrite (Z.mod_small (t - 13)) by (pow_consts; lia).
      assert (Hn : 0 <= (t - 13) / 2 < 2 ^ 63).
      { split; [apply Z.div_pos; lia |].
        apply Z.div_lt_upper_bound; pow_consts; lia. }
      rewrite int_small by exact Hn. split; [lia |].
      destruct (Z.ltb_spec (len buf) ((t - 13) / 2)); [eauto |].
      unfold sliceTo. rewrite slice_in_range by lia.
      cbn [bind]. rewrite Z.sub_0_r, Hval. reflexivity.
Qed.

(** ** parseRecord *)

(** [parseSerialType] never panics, and a decoded field lies inside the
    buffer. *)
Lemma parseSerialType_safe (t : Z) (buf : list byte) :
  0 <= t < 2 ^ 64 ->
  (exists e, parseSerialType t buf = Err e)
  \/ (exists val n, parseSerialType t buf = Ok (val, n) /\ 0 <= n <= len buf).
Proof.
  intros Ht. pose proof (parseSerialType_table t buf Ht) as Htab.
  destruct (serialWidth t) as [w |]; [| left; eauto].
  destruct Htab as [Hw Htab].
  destruct (Z.ltb_spec (len buf) w); [left; exact Htab |].
  right. eexists _, _. split; [exact Htab | lia].
Qed.

(** The first loop of [parseRecord] returns, and the rounds allowed never
    end it early: one more round changes nothing. *)
Lemma readTypes_rounds (rounds : nat) (header : list byte) (idx : Z)
    (types : list Z) :
  0 <= idx -> len header - idx <= Z.of_nat rounds ->
  readTypes (S rounds) header idx types = readTypes rounds header idx types.
Proof.
  revert idx types. induction rounds as [| rounds IH]; intros idx types Hi Hr.
  - simpl. destruct (Z.ltb_spec idx (len header)); [lia | reflexivity].
  - change (readTypes (S (S rounds)) header idx types)
      with (if idx <? len header then
              do rest <- sliceFrom header idx;
              do (t, n) <- readVarint rest;
              if n =? 0 then Ok types
              else readTypes (S rounds) header (idx + n) (types ++ [t])
            else Ok types).
    change (readTypes (S rounds) header idx types)
      with (if idx <? len header then
              do rest <- sliceFrom header idx;
              do (t, n) <- readVarint rest;
              if n =? 0 then Ok types
              else readTypes rounds header (idx + n) (types ++ [t])
            else Ok types).
    destruct (Z.ltb_spec idx (len header)) as [Hlt | Hge]; [| reflexivity].
    rewrite sliceFrom_in_range by lia. cbn [bind].
    destruct (readVarint_total (drop (Z.to_nat idx) header))
      as (t & n & Heq & _ & Hn & _).
    rewrite Heq. cbn [bind].
    destruct (Z.eqb_spec n 0); [reflexivity |].
    apply IH; lia.
Qed.

Lemma readTypes_enough (extra : nat) (header : list byte) :
  readTypes (length header + extra) header 0 []
  = readTypes (length header) header 0 [].
Proof.
  induction extra as [| extra IH].
  - rewrite Nat.add_0_r. reflexivity.
  - rewrite <- IH. rewrite Nat.add_succ_r.
    apply readTypes_rounds; [lia | unfold len; lia].
Qed.

Lemma readTypes_safe (rounds : nat) (header : list byte) (idx : Z)
    (types : list Z) :
  0 <= idx -> Forall u63 types ->
  exists ts, readTypes rounds header idx types = Ok ts /\ Forall u63 ts.
Proof.
  revert idx types. induction rounds as [| rounds IH]; intros idx types Hi Hts.
  - exists types. split; [reflexivity | exact Hts].
  - simpl. destruct (Z.ltb_spec idx (len header)) as [Hlt | Hge].
    2:{ exists types. split; [reflexivity | exact Hts]. }
    rewrite sliceFrom_in_range by lia. cbn [bind].
    destruct (readVarint_total (drop (Z.to_nat idx) header))
      as (t & n & Heq & Ht & Hn & _).
    rewrite Heq. cbn [bind].
    destruct (Z.eqb_spec n 0).
    { exists types. split; [reflexivity | exact Hts]. }
    apply IH; [lia |]. apply Forall_app. split; [exact Hts |].
    constructor; [exact Ht | constructor].
Qed.

(** The second loop never panics: the body cursor stays inside the body. *)
Lemma readValues_safe (types : list Z) (body : list byte) (bodyIdx : Z)
    (values : list Value) :
  Forall u63 types -> 0 <= bodyIdx <= len body ->
  (exists e, readValues types body bodyIdx values = Err e)
  \/ (exists vs, readValues types body bodyIdx values = Ok vs).
Proof.
  revert bodyIdx values.
  induction types as [| t types IH]; intros bodyIdx values Hts Hi.
  - right. exists values. reflexivity.
  - apply Forall_cons in Hts as [Ht Hts]. simpl.
    rewrite sliceFrom_in_range by lia. cbn [bind].
    assert (Ht64 : 0 <= t < 2 ^ 64) by (unfold u63 in Ht; pow_consts; lia).
    destruct (parseSerialType_safe t (drop (Z.to_nat bodyIdx) body) Ht64)
      as [[e He] | (val & n & Heq & Hn)].
    + left. exists e. rewrite He. reflexivity.
    + rewrite Heq. cbn [bind]. apply IH; [exact Hts |].
      rewrite len_drop in Hn by lia. lia.
Qed.

(** What [parseRecord] does, by the header-length varint [(headerLen, n)]
    of the payload. *)
Lemma parseRecord_cases (payload : list byte) :
  exists headerLen n,
    readVarint payload = Ok (headerLen, n)
    /\ 0 <= headerLen < 2 ^ 63 /\ 0 <= n <= 9 /\ n <= len payload
    /\ ((n = 0 \/ len payload < headerLen) ->
        parseRecord payload = Err "invalid header length")
    /\ (n <> 0 -> headerLen <= len payload -> headerLen < n ->
        parseRecord payload = Panic (SliceLowAboveHigh n headerLen))
    /\ (n <> 0 -> headerLen <= len payload -> n <= headerLen ->
        (exists e, parseRecord payload = Err e)
        \/ (exists vs, parseRecord payload = Ok vs)).
Proof.
  destruct (readVarint_total payload) as (h & n & Heq & Hh & Hn & Hnl).
  exists h, n. split; [exact Heq |]. split; [exact Hh |].
  split; [exact Hn |]. split; [exact Hnl |].
  unfold parseRecord. rewrite Heq. cbn [bind].
  rewrite (int_small h) by exact Hh.
  split; [| split].
  - intros [-> | Hlt]; [reflexivity |].
    destruct (Z.ltb_spec (len payload) h); [| lia].
    rewrite orb_true_r. reflexivity.
  - intros Hn0 Hle Hlt.
    destruct (Z.eqb_spec n 0); [lia |].
    destruct (Z.ltb_spec (len payload) h); [lia |]. cbn [orb].
    unfold slice.
    destruct (Z.ltb_spec h 0); [lia |].
    destruct (Z.ltb_spec (len payload) h); [lia |]. cbn [orb].
    destruct (Z.ltb_spec n 0); [lia |].
    destruct (Z.ltb_spec h n); [| lia]. reflexivity.
  - intros Hn0 Hle Hge.
    destruct (Z.eqb_spec n 0); [lia |].
    destruct (Z.ltb_spec (len payload) h); [lia |]. cbn [orb].
    rewrite slice_in_range by lia. cbn [bind].
    rewrite sliceFrom_in_range by lia. cbn [bind].
    match goal with |- context [readTypes ?r ?hd 0 []] =>
      destruct (readTypes_safe r hd 0 [] ltac:(lia) ltac:(constructor))
        as (ts & Hts & Hall)
    end.
    rewrite Hts. cbn [bind].
    match goal with |- context [readValues ts ?b 0 []] =>
      destruct (readValues_safe ts b 0 [] Hall) as [[e He] | [vs Hvs]]
    end.
    + pose proof (len_nonneg (drop (Z.to_nat h) payload)). lia.
    + left. eauto.
    + right. eauto.
Qed.

(** ** tryRecoverRow and processPage *)

Lemma BigEndian_Uint16_range (buf : list byte) :
  2 <= len buf -> exists w, BigEndian_Uint16 buf = Ok w /\ 0 <= w < 65536.
Proof.
  intros Hlen. destruct buf as [| b0 [| b1 rest]]; try short_buf Hlen.
  unfold BigEndian_Uint16. index_at. byte_ranges. lor_chain.
  eexists. split; [reflexivity |]. pow_consts. lia.
Qed.

(** A two-byte field at [off], read as the source does:
    [binary.BigEndian.Uint16(pageData[off : off+2])]. *)
Lemma read_u16_field (pageData : list byte) (off : Z) :
  0 <= off -> off + 2 <= len pageData ->
  exists w, (do p <- slice pageData off (off + 2); BigEndian_Uint16 p) = Ok w
            /\ 0 <= w < 65536.
Proof.
  intros Hoff Hlen. rewrite slice_in_range by lia. cbn [bind].
  apply BigEndian_Uint16_range.
  replace (off + 2 - off) with 2 by lia.
  rewrite len_take; [lia |]. rewrite len_drop by lia. lia.
Qed.

Section ScannerProps.

Variable DB : Type.
Variable Exec : DB -> string -> list Value -> DB * bool.
Variable ToUpper : string -> string.

Local Abbreviation isKey := (isIntegerPk ToUpper).
Local Abbreviation recover := (tryRecoverRow DB Exec ToUpper).
Local Abbreviation loop := (cellLoop DB Exec ToUpper).
Local Abbreviation scan := (processPage DB Exec ToUpper).

(** The index loop of [tryRecoverRow] computes the insert vector; none of
    its index expressions is out of range once the arities agree. *)
Lemma fillRowID_insertVector (rowID : Z) (cols : list ColumnInfo)
    (done rest : list Value) :
  length cols = length rest ->
  fillRowID ToUpper cols (len done) rowID (done ++ rest)
  = Ok (done ++ insertVector isKey rowID cols rest).
Proof.
  revert done rest.
  induction cols as [| col cols IH]; intros done rest Hlen.
  - destruct rest; [| discriminate Hlen].
    reflexivity.
  - destruct rest as [| v rest]; [discriminate Hlen |].
    injection Hlen as Hlen.
    assert (Hnext : forall x : Value,
               fillRowID ToUpper cols (len done + 1) rowID (done ++ x :: rest)
               = Ok (done ++ x :: insertVector isKey rowID cols rest)).
    { intros x. specialize (IH (done ++ [x]) rest Hlen).
      rewrite len_app, <- !app_assoc in IH. exact IH. }
    pose proof (len_nonneg done) as Hnn.
    assert (Hlook : (done ++ v :: rest) !! Z.to_nat (len done) = Some v).
    { apply list_lookup_middle. unfold len. lia. }
    cbn [fillRowID insertVector zip_with].
    unfold substituteRowID at 1.
    destruct (isKey col).
    + rewrite (index_lookup _ _ v Hnn Hlook). cbn [bind].
      destruct v; try apply Hnext.
      replace (Z.to_nat (len done)) with (length done + 0)%nat
        by (unfold len; lia).
      rewrite insert_app_r. cbn [list_insert insert]. apply Hnext.
    + apply Hnext.
Qed.

Lemma fillRowID_all (rowID : Z) (cols : list ColumnInfo)
    (values : list Value) :
  len cols = len values ->
  fillRowID ToUpper cols 0 rowID values
  = Ok (insertVector isKey rowID cols values).
Proof.
  intros Hlen.
  apply (fillRowID_insertVector rowID cols [] values).
  unfold len in Hlen. lia.
Qed.

(** [tryRecoverRow] returns normally; it makes at most one call per
    schema, only the last of which can have succeeded. *)
Lemma tryRecoverRow_returns (rowID : Z) (values : list Value)
    (tables : list TableInfo) (outDB : DB) :
  exists outDB' calls,
    recover rowID values tables outDB = (outDB', calls, Ok tt)
    /\ oneAttempt tables calls.
Proof.
  revert outDB. induction tables as [| table tables IH]; intros outDB.
  - exists outDB, []. unfold oneAttempt. repeat split; simpl; lia.
  - simpl.
    destruct (Z.eqb_spec (len (tbl_Columns table)) (len values))
      as [Hlen | Hlen]; cbn [negb].
    2:{ destruct (IH outDB) as (db' & calls & Heq & Hc & Hp).
        exists db', calls. split; [exact Heq |].
        split; [simpl; lia | exact Hp]. }
    rewrite fillRowID_all by exact Hlen.
    destruct (Exec outDB _ _) as [db1 ok]. destruct ok.
    + eexists _, _. split; [reflexivity |]. split; simpl; lia.
    + destruct (IH db1) as (db' & calls & Heq & Hc & Hp).
      rewrite Heq. eexists _, _. split; [reflexivity |].
      split; [simpl; lia |].
      unfold placed in *. rewrite filter_cons_False by (simpl; congruence).
      exact Hp.
Qed.

(** Decoding the cell at an offset inside the page: every index and slice
    bound stays inside the page; the one fault left is the inverted
    header slice of [parseRecord]. *)
Lemma decodeCell_safe (pageData : list byte) (cellOffset : Z) :
  0 <= cellOffset < len pageData ->
  (exists r, decodeCell pageData cellOffset = Ok r)
  \/ (exists lo hi,
        decodeCell pageData cellOffset = Panic (SliceLowAboveHigh lo hi)
        /\ 0 <= hi /\ hi < lo /\ lo <= 9).
Proof.
  intros Hoff. unfold decodeCell.
  rewrite sliceFrom_in_range by lia. cbn [bind].
  set (cell := drop (Z.to_nat cellOffset) pageData).
  destruct (readVarint_total cell) as (ps & n & Hps & Hpsr & Hn & Hnl).
  rewrite Hps. cbn [bind].
  destruct (Z.eqb_spec n 0); [left; eauto |].
  rewrite sliceFrom_in_range by lia. cbn [bind].
  destruct (readVarint_total (drop (Z.to_nat n) cell))
    as (rowID & n2 & Hrow & _ & Hn2 & Hn2l).
  rewrite Hrow. cbn [bind].
  destruct (Z.eqb_spec n2 0); [left; eauto |].
  rewrite len_drop in Hn2l by lia.
  rewrite (int_small ps) by exact Hpsr.
  destruct (Z.ltb_spec (len cell - (n + n2)) ps); [left; eauto |].
  rewrite slice_in_range by lia. cbn [bind].
  match goal with |- context [parseRecord ?p] =>
    destruct (parseRecord_cases p)
      as (h & m & _ & Hh & Hm & Hml & Herr & Hpanic & Hgood);
    set (payload := p) in *
  end.
  destruct (Z.eq_dec m 0) as [Hm0 | Hm0].
  { rewrite Herr by (left; exact Hm0). left. eauto. }
  destruct (Z.ltb_spec (len payload) h) as [Hlt | Hle].
  { rewrite Herr by (right; exact Hlt). left. eauto. }
  destruct (Z.ltb_spec h m) as [Hinv | Hfwd].
  { rewrite Hpanic by assumption. right. exists m, h.
    repeat split; lia. }
  destruct (Hgood Hm0 Hle Hfwd) as [[e He] | [vs Hvs]].
  - rewrite He. left. eauto.
  - rewrite Hvs. left. eauto.
Qed.

(** The cell loop entered at pointer slot [i]: every row it hands over
    has used one whole pointer slot of the page. *)
Lemma cellLoop_bounded (left : nat) (pageData : list byte)
    (headerOffset i : Z) (tables : list TableInfo) (outDB : DB) :
  0 <= headerOffset -> 0 <= i ->
  exists outDB' rows r,
    loop left pageData headerOffset i tables outDB = (outDB', rows, r)
    /\ 2 * len rows <= Z.max 0 (len pageData - (headerOffset + 8 + i * 2))
    /\ Forall (oneAttempt tables) rows
    /\ nilOrInverted r.
Proof.
  intros Hh. revert i outDB.
  induction left as [| left IH]; intros i outDB Hi.
  - exists outDB, [], (Ok tt). split; [reflexivity |].
    split; [unfold len; simpl; lia |]. split; [constructor | left; reflexivity].
  - simpl.
    destruct (Z.ltb_spec (len pageData) (headerOffset + 8 + i * 2 + 2))
      as [Hend | Hin].
    { exists outDB, [], (Ok tt). split; [reflexivity |].
      split; [unfold len; simpl; lia |].
      split; [constructor | left; reflexivity]. }
    destruct (read_u16_field pageData (headerOffset + 8 + i * 2))
      as (cellOffset & Hread & Hrange); [lia | lia |].
    rewrite Hread.
    rewrite (int_small cellOffset) by (pow_consts; lia).
    assert (Hskip : exists outDB' rows r,
               loop left pageData headerOffset (i + 1) tables outDB
               = (outDB', rows, r)
               /\ 2 * len rows
                  <= Z.max 0 (len pageData - (headerOffset + 8 + i * 2))
               /\ Forall (oneAttempt tables) rows /\ nilOrInverted r).
    { destruct (IH (i + 1) outDB ltac:(lia))
        as (db' & rows & r & Heq & Hb & Hrows & Hr).
      exists db', rows, r. split; [exact Heq |]. split; [lia |].
      split; assumption. }
    destruct (Z.leb_spec (len pageData) cellOffset) as [Hout | Hinside];
      [exact Hskip |].
    destruct (decodeCell_safe pageData cellOffset ltac:(lia))
      as [[[[rowID values] |] Hdec] | (lo & hi & Hdec & Hlohi)];
      rewrite Hdec.
    + destruct (tryRecoverRow_returns rowID values tables outDB)
        as (db1 & calls & Hrec & Hcalls).
      rewrite Hrec.
      destruct (IH (i + 1) db1 ltac:(lia))
        as (db' & rows & r & Heq & Hb & Hrows & Hr).
      rewrite Heq. exists db', (calls :: rows), r.
      split; [reflexivity |]. split; [rewrite len_cons; lia |].
      split; [constructor; assumption | exact Hr].
    + exact Hskip.
    + exists outDB, [], (Panic (SliceLowAboveHigh lo hi)).
      split; [reflexivity |]. split; [unfold len; simpl; lia |].
      split; [constructor |]. right. eauto.
Qed.

(** A page that holds the B-tree header at either header offset is
    scanned without any access outside it. *)
Lemma processPage_bounded (pageData : list byte) (pageIndex : Z)
    (tables : list TableInfo) (outDB : DB) :
  108 <= len pageData ->
  exists outDB' rows r,
    scan pageData pageIndex tables outDB = (outDB', rows, r)
    /\ len rows <= (len pageData - 8) / 2
    /\ Forall (oneAttempt tables) rows
    /\ nilOrInverted r.
Proof.
  intros Hlen. unfold processPage.
  set (headerOffset := if pageIndex =? 0 then 100 else 0).
  assert (Hh : 0 <= headerOffset <= 100)
    by (subst headerOffset; destruct (pageIndex =? 0); lia).
  assert (Hnone : exists outDB' rows r,
             (outDB, @nil (list call), @Ok unit tt) = (outDB', rows, r)
             /\ len rows <= (len pageData - 8) / 2
             /\ Forall (oneAttempt tables) rows /\ nilOrInverted r).
  { exists outDB, [], (Ok tt). split; [reflexivity |].
    split; [change (len (@nil (list call))) with 0; apply Z.div_pos; lia |].
    split; [constructor | left; reflexivity]. }
  destruct (Z.leb_spec (len pageData) headerOffset); [exact Hnone |].
  destruct (index_in_range pageData headerOffset ltac:(lia))
    as (flag & Hflag & _).
  rewrite Hflag.
  destruct (Z.eqb_spec (byteZ flag) 13); cbn [negb]; [| exact Hnone].
  destruct (read_u16_field pageData (headerOffset + 3))
    as (numCells & Hread & Hrange); [lia | lia |].
  replace (headerOffset + 3 + 2) with (headerOffset + 5) in Hread by lia.
  rewrite Hread.
  destruct (cellLoop_bounded (Z.to_nat (int numCells)) pageData
              headerOffset 0 tables outDB ltac:(lia) ltac:(lia))
    as (db' & rows & r & Heq & Hb & Hrows & Hr).
  exists db', rows, r. split; [exact Heq |].
  split; [apply Z.div_le_lower_bound; lia |].
  split; assumption.
Qed.

End ScannerProps.

(** At most one successful call per row: the successful calls of a page
    are no more than its rows. *)
Lemma placed_rows (tables : list TableInfo) (rows : list (list call)) :
  Forall (oneAttempt tables) rows ->
  len (placed (sinkCalls rows)) <= len rows.
Proof.
  induction 1 as [| calls rows [_ Hone] _ IH].
  - unfold len. simpl. lia.
  - unfold sinkCalls, placed in *. cbn [concat].
    rewrite filter_app, len_app, len_cons.
    unfold len in *. lia.
Qed.

(** ** [strings.ToUpper] and the case of letters *)

Lemma stringBytes_cons (c : ascii) (s : string) :
  stringBytes (String c s) = Z.of_nat (nat_of_ascii c) :: stringBytes s.
Proof. reflexivity. Qed.

Lemma bytesString_cons (b : Z) (bs : list Z) :
  bytesString (b :: bs)
  = String (ascii_of_nat (Z.to_nat b)) (bytesString bs).
Proof. reflexivity. Qed.

Lemma stringBytes_range (s : string) :
  Forall (fun b => 0 <= b < 256) (stringBytes s).
Proof.
  induction s as [| c s IH]; [constructor |].
  rewrite stringBytes_cons. constructor; [| exact IH].
  pose proof (nat_ascii_bounded c). lia.
Qed.

Lemma stringBytes_bytesString (bs : list Z) :
  Forall (fun b => 0 <= b < 256) bs -> stringBytes (bytesString bs) = bs.
Proof.
  induction 1 as [| b bs Hb _ IH]; [reflexivity |].
  rewrite bytesString_cons, stringBytes_cons, IH.
  rewrite nat_ascii_embedding by lia. rewrite Z2Nat.id by lia. reflexivity.
Qed.

Lemma bytesString_stringBytes (s : string) : bytesString (stringBytes s) = s.
Proof.
  induction s as [| c s IH]; [reflexivity |].
  rewrite stringBytes_cons, bytesString_cons, IH, Nat2Z.id.
  rewrite ascii_nat_embedding. reflexivity.
Qed.

(** The masks and shifts of UTF-8 as arithmetic. *)
Lemma low_bits (a n : Z) (m : Z) :
  0 <= n -> m = Z.ones n -> Z.land a m = a mod 2 ^ n.
Proof. intros Hn ->. apply Z.land_ones. exact Hn. Qed.

Lemma decode2 (s0 s1 : Z) :
  0xC2 <= s0 <= 0xDF -> 0x80 <= s1 <= 0xBF ->
  Z.lor (Z.shiftl (Z.land s0 0x1F) 6) (Z.land s1 0x3F)
  = (s0 - 0xC0) * 64 + (s1 - 0x80).
Proof.
  intros H0 H1.
  rewrite (low_bits s0 5), (low_bits s1 6) by (lia || reflexivity).
  rewrite Z.shiftl_mul_pow2 by lia.
  change (2 ^ 5) with 32. change (2 ^ 6) with 64.
  assert (E0 : s0 mod 32 = s0 - 0xC0) by (Z.div_mod_to_equations; lia).
  assert (E1 : s1 mod 64 = s1 - 0x80) by (Z.div_mod_to_equations; lia).
  rewrite E0, E1. change 64 with (2 ^ 6) at 1.
  rewrite lor_disjoint by (change (2 ^ 6) with 64; lia).
  reflexivity.
Qed.

Lemma decode3 (s0 s1 s2 : Z) :
  0xE0 <= s0 <= 0xEF -> 0x80 <= s1 <= 0xBF -> 0x80 <= s2 <= 0xBF ->
  Z.lor (Z.lor (Z.shiftl (Z.land s0 0x0F) 12)
               (Z.shiftl (Z.land s1 0x3F) 6))
        (Z.land s2 0x3F)
  = (s0 - 0xE0) * 4096 + (s1 - 0x80) * 64 + (s2 - 0x80).
Proof.
  intros H0 H1 H2.
  rewrite (low_bits s0 4), (low_bits s1 6), (low_bits s2 6)
    by (lia || reflexivity).
  rewrite !Z.shiftl_mul_pow2 by lia.
  change (2 ^ 4) with 16. change (2 ^ 6) with 64.
  assert (E0 : s0 mod 16 = s0 - 0xE0) by (Z.div_mod_to_equations; lia).
  assert (E1 : s1 mod 64 = s1 - 0x80) by (Z.div_mod_to_equations; lia).
  assert (E2 : s2 mod 64 = s2 - 0x80) by (Z.div_mod_to_equations; lia).
  rewrite E0, E1, E2.
  rewrite (lor_disjoint (s0 - 0xE0) _ 12) by (change (2 ^ 12) with 4096; lia).
  change (2 ^ 12) with 4096.
  replace ((s0 - 0xE0) * 4096 + (s1 - 0x80) * 64)
    with (((s0 - 0xE0) * 64 + (s1 - 0x80)) * 2 ^ 6)
    by (change (2 ^ 6) with 64; lia).
  rewrite lor_disjoint by (change (2 ^ 6) with 64; lia).
  change (2 ^ 6) with 64. lia.
Qed.

Lemma decode4 (s0 s1 s2 s3 : Z) :
  0xF0 <= s0 <= 0xF4 -> 0x80 <= s1 <= 0xBF -> 0x80 <= s2 <= 0xBF ->
  0x80 <= s3 <= 0xBF ->
  Z.lor (Z.lor (Z.lor (Z.shiftl (Z.land s0 0x07) 18)
                      (Z.shiftl (Z.land s1 0x3F) 12))
               (Z.shiftl (Z.land s2 0x3F) 6))
        (Z.land s3 0x3F)
  = (s0 - 0xF0) * 262144 + (s1 - 0x80) * 4096 + (s2 - 0x80) * 64
    + (s3 - 0x80).
Proof.
  intros H0 H1 H2 H3.
  rewrite (low_bits s0 3), (low_bits s1 6), (low_bits s2 6),
    (low_bits s3 6) by (lia || reflexivity).
  rewrite !Z.shiftl_mul_pow2 by lia.
  change (2 ^ 3) with 8. change (2 ^ 6) with 64.
  assert (E0 : s0 mod 8 = s0 - 0xF0) by (Z.div_mod_to_equations; lia).
  assert (E1 : s1 mod 64 = s1 - 0x80) by (Z.div_mod_to_equations; lia).
  assert (E2 : s2 mod 64 = s2 - 0x80) by (Z.div_mod_to_equations; lia).
  assert (E3 : s3 mod 64 = s3 - 0x80) by (Z.div_mod_to_equations; lia).
  rewrite E0, E1, E2, E3.
  rewrite (lor_disjoint (s0 - 0xF0) _ 18)
    by (change (2 ^ 18) with 262144; change (2 ^ 12) with 4096; lia).
  change (2 ^ 18) with 262144. change (2 ^ 12) with 4096.
  replace ((s0 - 0xF0) * 262144 + (s1 - 0x80) * 4096)
    with (((s0 - 0xF0) * 64 + (s1 - 0x80)) * 2 ^ 12)
    by (change (2 ^ 12) with 4096; lia).
  rewrite lor_disjoint by (change (2 ^ 12) with 4096; lia).
  change (2 ^ 12) with 4096.
  replace (((s0 - 0xF0) * 64 + (s1 - 0x80)) * 4096 + (s2 - 0x80) * 64)
    with ((((s0 - 0xF0) * 64 + (s1 - 0x80)) * 64 + (s2 - 0x80)) * 2 ^ 6)
    by (change (2 ^ 6) with 64; lia).
  rewrite lor_disjoint by (change (2 ^ 6) with 64; lia).
  change (2 ^ 6) with 64. lia.
Qed.

Ltac bool_hyps :=
  repeat match goal with
  | H : (_ && _) = true |- _ => apply andb_true_iff in H as [? ?]
  | H : (_ <=? _) = true |- _ => apply Z.leb_le in H
  | H : (_ <? _) = true |- _ => apply Z.ltb_lt in H
  | H : (_ =? _) = true |- _ => apply Z.eqb_eq in H
  | H : (_ <=? _) = false |- _ => apply Z.leb_gt in H
  | H : (_ <? _) = false |- _ => apply Z.ltb_ge in H
  | H : (_ =? _) = false |- _ => apply Z.eqb_neq in H
  end.

(** A string that starts with a byte outside the ASCII range starts with a
    rune outside it; that rune is U+0131 only for the bytes C4 B1. *)
Lemma DecodeRuneInString_high (x : Z) (s' : list Z) (c w : Z) :
  RuneSelf <= x -> DecodeRuneInString (x :: s') = (c, w) ->
  (1 <= Z.to_nat w <= length (x :: s'))%nat
  /\ RuneSelf <= c
  /\ (c = 0x131 -> x = 0xC4 /\ w = 2 /\ exists s'', s' = 0xB1 :: s'').
Proof.
  unfold RuneSelf. intros Hx Hdec.
  assert (Hbad : (RuneError, 1) = (c, w) ->
                 (1 <= Z.to_nat w <= length (x :: s'))%nat
                 /\ 0x80 <= c
                 /\ (c = 0x131 ->
                     x = 0xC4 /\ w = 2 /\ exists s'', s' = 0xB1 :: s'')).
  { intros [= <- <-]. unfold RuneError. cbn [length].
    split; [lia |]. split; [lia |]. intros; lia. }
  unfold DecodeRuneInString, RuneSelf, continuation in Hdec.
  destruct (x <? 0x80) eqn:E1; bool_hyps; [lia |].
  destruct ((0xC2 <=? x) && (x <=? 0xDF)) eqn:E2; bool_hyps.
  { destruct s' as [| s1 s'']; [exact (Hbad Hdec) |].
    destruct ((0x80 <=? s1) && (s1 <=? 0xBF)) eqn:Ec; bool_hyps;
      [| exact (Hbad Hdec)].
    rewrite decode2 in Hdec by lia. injection Hdec as <- <-.
    cbn [length]. split; [lia |]. split; [lia |].
    intros Hc. assert (x = 0xC4 /\ s1 = 0xB1) as [-> ->] by lia.
    split; [reflexivity |]. split; [reflexivity |]. exists s''. reflexivity. }
  destruct ((0xE0 <=? x) && (x <=? 0xEF)) eqn:E3; bool_hyps.
  { destruct s' as [| s1 [| s2 s'']]; try exact (Hbad Hdec).
    match type of Hdec with (if ?t then _ else _) = _ =>
      destruct t eqn:Ec end; [| exact (Hbad Hdec)].
    destruct (x =? 0xE0) eqn:Ea; destruct (x =? 0xED) eqn:Eb; bool_hyps;
      rewrite decode3 in Hdec by lia; injection Hdec as <- <-;
      cbn [length]; (split; [lia |]); (split; [lia |]); intros; lia. }
  destruct ((0xF0 <=? x) && (x <=? 0xF4)) eqn:E4; bool_hyps;
    [| exact (Hbad Hdec)].
  destruct s' as [| s1 [| s2 [| s3 s'']]]; try exact (Hbad Hdec).
  match type of Hdec with (if ?t then _ else _) = _ =>
    destruct t eqn:Ec end; [| exact (Hbad Hdec)].
  destruct (x =? 0xF0) eqn:Ea; destruct (x =? 0xF4) eqn:Eb; bool_hyps;
    rewrite decode4 in Hdec by lia; injection Hdec as <- <-;
    cbn [length]; (split; [lia |]); (split; [lia |]); intros; lia.
Qed.

Lemma DecodeRuneInString_ascii (x : Z) (s' : list Z) :
  x < RuneSelf -> DecodeRuneInString (x :: s') = (x, 1).
Proof.
  intros Hx. unfold DecodeRuneInString.
  destruct (Z.ltb_spec x RuneSelf); [reflexivity | lia].
Qed.

(** The encoding of a rune outside the ASCII range starts with a byte
    outside it, and every byte of an encoding is a byte. *)
Lemma EncodeRune_bytes (r : Z) :
  0 <= r -> Forall (fun b => 0 <= b < 256) (EncodeRune r).
Proof.
  intros Hr. unfold EncodeRune, MaxRune.
  destruct ((0 <=? r) && (r <=? 0x7F)) eqn:E1; bool_hyps.
  { repeat constructor; lia. }
  destruct ((0 <=? r) && (r <=? 0x7FF)) eqn:E2; bool_hyps.
  { rewrite Z.shiftr_div_pow2, (low_bits r 6) by (lia || reflexivity).
    change 0xC0 with (3 * 2 ^ 6). change 0x80 with (2 * 2 ^ 6).
    rewrite !lor_disjoint
      by (change (2 ^ 6) with 64; Z.div_mod_to_equations; lia).
    change (2 ^ 6) with 64.
    repeat constructor; Z.div_mod_to_equations; lia. }
  match goal with |- context [if ?t then _ else _] => destruct t eqn:E3 end.
  { repeat constructor; lia. }
  apply orb_false_iff in E3 as [E3 E5].
  apply orb_false_iff in E3 as [E3 E4]. bool_hyps.
  destruct (r <=? 0xFFFF) eqn:E6; bool_hyps.
  - rewrite !Z.shiftr_div_pow2, !(low_bits _ 6) by (lia || reflexivity).
    change 0xE0 with (14 * 2 ^ 4). change 0x80 with (2 * 2 ^ 6).
    rewrite (lor_disjoint 14 _ 4)
      by (change (2 ^ 4) with 16; change (2 ^ 12) with 4096;
          Z.div_mod_to_equations; lia).
    rewrite !(lor_disjoint 2 _ 6)
      by (change (2 ^ 6) with 64; Z.div_mod_to_equations; lia).
    change (2 ^ 6) with 64. change (2 ^ 4) with 16.
    change (2 ^ 12) with 4096.
    repeat constructor; Z.div_mod_to_equations; lia.
  - rewrite !Z.shiftr_div_pow2, !(low_bits _ 6) by (lia || reflexivity).
    change 0xF0 with (30 * 2 ^ 3). change 0x80 with (2 * 2 ^ 6).
    rewrite (lor_disjoint 30 _ 3)
      by (change (2 ^ 3) with 8; change (2 ^ 18) with 262144;
          Z.div_mod_to_equations; lia).
    rewrite !(lor_disjoint 2 _ 6)
      by (change (2 ^ 6) with 64; Z.div_mod_to_equations; lia).
    change (2 ^ 6) with 64. change (2 ^ 3) with 8.
    change (2 ^ 12) with 4096. change (2 ^ 18) with 262144.
    repeat constructor; Z.div_mod_to_equations; lia.
Qed.

Lemma EncodeRune_high (r : Z) :
  RuneSelf <= r -> exists b tl, EncodeRune r = b :: tl /\ RuneSelf <= b.
Proof.
  unfold RuneSelf. intros Hr. unfold EncodeRune, MaxRune.
  destruct ((0 <=? r) && (r <=? 0x7F)) eqn:E1; bool_hyps; [lia |].
  destruct ((0 <=? r) && (r <=? 0x7FF)) eqn:E2; bool_hyps.
  { eexists _, _. split; [reflexivity |].
    rewrite Z.shiftr_div_pow2 by lia. change 0xC0 with (3 * 2 ^ 6).
    rewrite lor_disjoint
      by (change (2 ^ 6) with 64; Z.div_mod_to_equations; lia).
    change (2 ^ 6) with 64. Z.div_mod_to_equations; lia. }
  match goal with |- context [if ?t then _ else _] => destruct t eqn:E3 end.
  { eexists _, _. split; [reflexivity | lia]. }
  apply orb_false_iff in E3 as [E3 E5].
  apply orb_false_iff in E3 as [E3 E4]. bool_hyps.
  destruct (r <=? 0xFFFF) eqn:E6; bool_hyps.
  - eexists _, _. split; [reflexivity |].
    rewrite Z.shiftr_div_pow2 by lia. change 0xE0 with (14 * 2 ^ 4).
    rewrite lor_disjoint
      by (change (2 ^ 4) with 16; change (2 ^ 12) with 4096;
          Z.div_mod_to_equations; lia).
    change (2 ^ 4) with 16. change (2 ^ 12) with 4096.
    Z.div_mod_to_equations; lia.
  - eexists _, _. split; [reflexivity |].
    rewrite Z.shiftr_div_pow2 by lia. change 0xF0 with (30 * 2 ^ 3).
    rewrite lor_disjoint
      by (change (2 ^ 3) with 8; change (2 ^ 18) with 262144;
          Z.div_mod_to_equations; lia).
    change (2 ^ 3) with 8. change (2 ^ 18) with 262144.
    Z.div_mod_to_equations; lia.
Qed.

Lemma EncodeRune_ascii (r : Z) : 0 <= r < RuneSelf -> EncodeRune r = [r].
Proof.
  unfold RuneSelf. intros Hr. unfold EncodeRune.
  destruct (Z.leb_spec 0 r); [| lia].
  destruct (Z.leb_spec r 0x7F); [reflexivity | lia].
Qed.

(** Encoding a rune that was decoded from a valid encoding gives the bytes
    back: [strings.Map] may copy the bytes of an unchanged rune or encode
    the rune again, the string is the same. *)
Lemma EncodeRune_DecodeRuneInString (s : list Z) (c w : Z) :
  Forall (fun b => 0 <= b) s ->
  DecodeRuneInString s = (c, w) ->
  (c, w) <> (RuneError, 0) -> (c, w) <> (RuneError, 1) ->
  EncodeRune c = take (Z.to_nat w) s.
Proof.
  intros Hs Hdec Hne0 Hne1.
  destruct s as [| x s']; [cbn in Hdec; congruence |].
  apply Forall_cons in Hs as [Hx _].
  unfold DecodeRuneInString, RuneSelf, continuation in Hdec.
  destruct (x <? 0x80) eqn:E1; bool_hyps.
  { injection Hdec as <- <-.
    rewrite EncodeRune_ascii by (unfold RuneSelf; lia). reflexivity. }
  unfold EncodeRune, MaxRune.
  destruct ((0xC2 <=? x) && (x <=? 0xDF)) eqn:E2; bool_hyps.
  { destruct s' as [| s1 s'']; [congruence |].
    destruct ((0x80 <=? s1) && (s1 <=? 0xBF)) eqn:Ec; bool_hyps;
      [| congruence].
    rewrite decode2 in Hdec by lia. injection Hdec as <- <-.
    set (c := (x - 0xC0) * 64 + (s1 - 0x80)).
    assert (Hc : 0x80 <= c <= 0x7FF) by (subst c; lia).
    destruct ((0 <=? c) && (c <=? 0x7F)) eqn:F1; bool_hyps; [lia |].
    destruct (Z.leb_spec 0 c); [| lia].
    destruct (Z.leb_spec c 0x7FF); [| lia]. cbn [andb].
    rewrite Z.shiftr_div_pow2, (low_bits c 6) by (lia || reflexivity).
    change 0xC0 with (3 * 2 ^ 6) at 1. change 0x80 with (2 * 2 ^ 6) at 1.
    rewrite !lor_disjoint
      by (change (2 ^ 6) with 64; Z.div_mod_to_equations; lia).
    change (2 ^ 6) with 64.
    assert (B0 : 3 * 64 + c / 64 = x)
      by (subst c; Z.div_mod_to_equations; lia).
    assert (B1 : 2 * 64 + c mod 64 = s1)
      by (subst c; Z.div_mod_to_equations; lia).
    rewrite B0, B1. norm_take. reflexivity. }
  destruct ((0xE0 <=? x) && (x <=? 0xEF)) eqn:E3; bool_hyps.
  { destruct s' as [| s1 [| s2 s'']]; try congruence.
    match type of Hdec with (if ?t then _ else _) = _ =>
      destruct t eqn:Ec end; [| congruence].
    assert (Hs1 : 0x80 <= s1 <= 0xBF
                  /\ (x = 0xE0 -> 0xA0 <= s1) /\ (x = 0xED -> s1 <= 0x9F)
                  /\ 0x80 <= s2 <= 0xBF).
    { destruct (x =? 0xE0) eqn:Ea; destruct (x =? 0xED) eqn:Eb; bool_hyps;
        lia. }
    destruct Hs1 as (Hs1 & Ha & Hb & Hs2).
    rewrite decode3 in Hdec by lia. injection Hdec as <- <-.
    set (c := (x - 0xE0) * 4096 + (s1 - 0x80) * 64 + (s2 - 0x80)).
    assert (Hc : 0x800 <= c <= 0xFFFF /\ ~ (0xD800 <= c <= 0xDFFF)).
    { subst c. destruct (Z.eq_dec x 0xE0); destruct (Z.eq_dec x 0xED);
        lia. }
    destruct Hc as [Hc Hsur].
    destruct ((0 <=? c) && (c <=? 0x7F)) eqn:F1; bool_hyps; [lia |].
    destruct ((0 <=? c) && (c <=? 0x7FF)) eqn:F2; bool_hyps; [lia |].
    destruct (Z.ltb_spec c 0); [lia |].
    destruct (Z.ltb_spec 0x10FFFF c); [lia |].
    assert (F3 : ((0xD800 <=? c) && (c <=? 0xDFFF)) = false).
    { destruct (Z.leb_spec 0xD800 c); [| reflexivity].
      destruct (Z.leb_spec c 0xDFFF); [lia | reflexivity]. }
    rewrite F3. cbn [orb].
    destruct (Z.leb_spec c 0xFFFF); [| lia].
    rewrite !Z.shiftr_div_pow2, !(low_bits _ 6) by (lia || reflexivity).
    change 0xE0 with (14 * 2 ^ 4) at 1.
    change 0x80 with (2 * 2 ^ 6) at 1. change 0x80 with (2 * 2 ^ 6) at 1.
    rewrite (lor_disjoint 14 _ 4)
      by (change (2 ^ 4) with 16; change (2 ^ 12) with 4096;
          Z.div_mod_to_equations; lia).
    rewrite !(lor_disjoint 2 _ 6)
      by (change (2 ^ 6) with 64; Z.div_mod_to_equations; lia).
    change (2 ^ 6) with 64. change (2 ^ 4) with 16.
    change (2 ^ 12) with 4096.
    assert (B0 : 14 * 16 + c / 4096 = x)
      by (subst c; Z.div_mod_to_equations; lia).
    assert (B1 : 2 * 64 + (c / 64) mod 64 = s1)
      by (subst c; Z.div_mod_to_equations; lia).
    assert (B2 : 2 * 64 + c mod 64 = s2)
      by (subst c; Z.div_mod_to_equations; lia).
    rewrite B0, B1, B2. norm_take. reflexivity. }
  destruct ((0xF0 <=? x) && (x <=? 0xF4)) eqn:E4; bool_hyps;
    [| congruence].
  destruct s' as [| s1 [| s2 [| s3 s'']]]; try congruence.
  match type of Hdec with (if ?t then _ else _) = _ =>
    destruct t eqn:Ec end; [| congruence].
  assert (Hs1 : 0x80 <= s1 <= 0xBF
                /\ (x = 0xF0 -> 0x90 <= s1) /\ (x = 0xF4 -> s1 <= 0x8F)
                /\ 0x80 <= s2 <= 0xBF /\ 0x80 <= s3 <= 0xBF).
  { destruct (x =? 0xF0) eqn:Ea; destruct (x =? 0xF4) eqn:Eb; bool_hyps;
      lia. }
  destruct Hs1 as (Hs1 & Ha & Hb & Hs2 & Hs3).
  rewrite decode4 in Hdec by lia. injection Hdec as <- <-.
  set (c := (x - 0xF0) * 262144 + (s1 - 0x80) * 4096 + (s2 - 0x80) * 64
            + (s3 - 0x80)).
  assert (Hc : 0x10000 <= c <= 0x10FFFF).
  { subst c. destruct (Z.eq_dec x 0xF0); destruct (Z.eq_dec x 0xF4); lia. }
  destruct ((0 <=? c) && (c <=? 0x7F)) eqn:F1; bool_hyps; [lia |].
  destruct ((0 <=? c) && (c <=? 0x7FF)) eqn:F2; bool_hyps; [lia |].
  destruct (Z.ltb_spec c 0); [lia |].
  destruct (Z.ltb_spec 0x10FFFF c); [lia |].
  assert (F3 : ((0xD800 <=? c) && (c <=? 0xDFFF)) = false).
  { destruct (Z.leb_spec 0xD800 c); [| reflexivity].
    destruct (Z.leb_spec c 0xDFFF); [lia | reflexivity]. }
  rewrite F3. cbn [orb].
  destruct (Z.leb_spec c 0xFFFF); [lia |].
  rewrite !Z.shiftr_div_pow2, !(low_bits _ 6) by (lia || reflexivity).
  change 0xF0 with (30 * 2 ^ 3) at 1.
  change 0x80 with (2 * 2 ^ 6) at 1. change 0x80 with (2 * 2 ^ 6) at 1.
  change 0x80 with (2 * 2 ^ 6) at 1.
  rewrite (lor_disjoint 30 _ 3)
    by (change (2 ^ 3) with 8; change (2 ^ 18) with 262144;
        Z.div_mod_to_equations; lia).
  rewrite !(lor_disjoint 2 _ 6)
    by (change (2 ^ 6) with 64; Z.div_mod_to_equations; lia).
  change (2 ^ 6) with 64. change (2 ^ 3) with 8.
  change (2 ^ 12) with 4096. change (2 ^ 18) with 262144.
  assert (B0 : 30 * 8 + c / 262144 = x)
    by (subst c; Z.div_mod_to_equations; lia).
  assert (B1 : 2 * 64 + (c / 4096) mod 64 = s1)
    by (subst c; Z.div_mod_to_equations; lia).
  assert (B2 : 2 * 64 + (c / 64) mod 64 = s2)
    by (subst c; Z.div_mod_to_equations; lia).
  assert (B3 : 2 * 64 + c mod 64 = s3)
    by (subst c; Z.div_mod_to_equations; lia).
  rewrite B0, B1, B2, B3. norm_take. reflexivity.
Qed.

(** Every round of [Map_loop] takes at least one byte off the string, so
    the rounds [Map] allows never cut the loop short. *)
Lemma DecodeRuneInString_width (x : Z) (s' : list Z) (c w : Z) :
  DecodeRuneInString (x :: s') = (c, w) ->
  (1 <= Z.to_nat w <= length (x :: s'))%nat.
Proof.
  intros Hdec. destruct (Z.ltb_spec x RuneSelf) as [Hlow | Hhigh].
  - rewrite DecodeRuneInString_ascii in Hdec by exact Hlow.
    injection Hdec as <- <-. cbn [length]. lia.
  - exact (proj1 (DecodeRuneInString_high x s' c w Hhigh Hdec)).
Qed.

Lemma Map_loop_rounds (mapping : Z -> Z) (n m : nat) (s : list Z) :
  (length s <= n)%nat -> (length s <= m)%nat ->
  Map_loop n mapping s = Map_loop m mapping s.
Proof.
  revert m s. induction n as [| n IH]; intros m s Hn Hm.
  - destruct s; [| cbn [length] in Hn; lia]. destruct m; reflexivity.
  - destruct s as [| x s']; [destruct m; reflexivity |].
    destruct m as [| m]; [cbn [length] in Hm; lia |].
    cbn [Map_loop].
    destruct (DecodeRuneInString (x :: s')) as [c w] eqn:Hdec.
    pose proof (DecodeRuneInString_width x s' c w Hdec) as Hw.
    f_equal. apply IH; rewrite length_drop; cbn [length] in *; lia.
Qed.

Lemma Map_loop_bytes (mapping : Z -> Z) (n : nat) (s : list Z) :
  Forall (fun b => 0 <= b < 256) (Map_loop n mapping s).
Proof.
  revert s. induction n as [| n IH]; intros s; [constructor |].
  destruct s as [| x s']; [constructor |].
  cbn [Map_loop]. destruct (DecodeRuneInString (x :: s')) as [c w].
  apply Forall_app. split; [| apply IH].
  destruct (Z.leb_spec 0 (mapping c)); [| constructor].
  apply EncodeRune_bytes. assumption.
Qed.

Section UpperCase.

Variable To_UpperCase : Z -> Z.
Hypothesis Hfacts : upperCaseFacts To_UpperCase.

Local Abbreviation toUpper := (unicode_ToUpper To_UpperCase).

(** One round of [strings.Map] with [unicode.ToUpper]. *)
Lemma Map_loop_ascii (n : nat) (x : Z) (s' : list Z) :
  0 <= x < RuneSelf ->
  Map_loop (S n) toUpper (x :: s')
  = (if (0x61 <=? x) && (x <=? 0x7A) then x - 0x20 else x)
    :: Map_loop n toUpper s'.
Proof.
  unfold RuneSelf. intros Hx. cbn [Map_loop].
  rewrite DecodeRuneInString_ascii by (unfold RuneSelf; lia).
  assert (Hup : toUpper x
                = if (0x61 <=? x) && (x <=? 0x7A) then x - 0x20 else x).
  { unfold unicode_ToUpper, MaxASCII.
    destruct (Z.leb_spec x 0x7F); [reflexivity | lia]. }
  rewrite Hup.
  assert (Hr : 0 <= (if (0x61 <=? x) && (x <=? 0x7A) then x - 0x20 else x)
               < 0x80).
  { destruct ((0x61 <=? x) && (x <=? 0x7A)) eqn:E; bool_hyps; lia. }
  destruct (Z.leb_spec 0
              (if (0x61 <=? x) && (x <=? 0x7A) then x - 0x20 else x));
    [| lia].
  rewrite EncodeRune_ascii by (unfold RuneSelf; lia). reflexivity.
Qed.

Lemma Map_loop_dotless (n : nat) (s'' : list Z) :
  Map_loop (S n) toUpper (0xC4 :: 0xB1 :: s'')
  = 0x49 :: Map_loop n toUpper s''.
Proof.
  cbn [Map_loop].
  change (DecodeRuneInString (0xC4 :: 0xB1 :: s'')) with (0x131, 2).
  cbn iota beta.
  assert (Hup : toUpper 0x131 = 0x49) by (apply (proj1 Hfacts)).
  rewrite Hup. reflexivity.
Qed.

Lemma Map_loop_high (n : nat) (x : Z) (s' : list Z) :
  RuneSelf <= x ->
  (x = 0xC4 /\ exists s'', s' = 0xB1 :: s'')
  \/ exists b tl,
       Map_loop (S n) toUpper (x :: s') = b :: tl
       /\ (b = 0x53 \/ RuneSelf <= b).
Proof.
  intros Hx. cbn [Map_loop].
  destruct (DecodeRuneInString (x :: s')) as [c w] eqn:Hdec.
  destruct (DecodeRuneInString_high x s' c w Hx Hdec) as (_ & Hc & Hi).
  destruct (Z.eq_dec c 0x131) as [Heq | Hne].
  { left. destruct (Hi Heq) as (-> & _ & Hs').
    split; [reflexivity | exact Hs']. }
  right.
  assert (Hup : toUpper c = To_UpperCase c).
  { unfold unicode_ToUpper, MaxASCII, RuneSelf in *.
    destruct (Z.leb_spec c 0x7F); [lia | reflexivity]. }
  rewrite Hup.
  destruct (proj2 Hfacts c Hc Hne) as [HS | Hhigh].
  - rewrite HS. eexists _, _. split; [reflexivity |]. left. reflexivity.
  - assert (H0 : 0 <= To_UpperCase c) by (unfold RuneSelf in *; lia).
    destruct (Z.leb_spec 0 (To_UpperCase c)); [| lia].
    destruct (EncodeRune_high _ Hhigh) as (b & tl & -> & Hb).
    eexists _, _. split; [reflexivity |]. right. exact Hb.
Qed.

(** What [strings.Map] with [unicode.ToUpper] turns into a word of
    upper-case letters (an S apart): the spellings of the word, a dotless
    i counting as an I. *)
Lemma Map_loop_spells (word : list Z) :
  Forall (fun u => isUpperLetter u = true /\ u <> 0x53) word ->
  forall (n : nat) (s : list Z),
    (length s <= n)%nat -> Forall (fun b => 0 <= b) s ->
    Map_loop n toUpper s = word <-> spells true word s = true.
Proof.
  induction 1 as [| u word [Hu HS] _ IH]; intros n s Hn Hs.
  - destruct s as [| x s'].
    + destruct n; split; reflexivity.
    + destruct n as [| n]; [cbn [length] in Hn; lia |].
      apply Forall_cons in Hs as [Hx _]. cbn [spells].
      split; [| discriminate].
      destruct (Z.ltb_spec x RuneSelf) as [Hlow | Hhigh].
      * rewrite Map_loop_ascii by lia. discriminate.
      * destruct (Map_loop_high n x s' Hhigh)
          as [(-> & s'' & ->) | (b & tl & -> & _)]; [| discriminate].
        rewrite Map_loop_dotless. discriminate.
  - unfold isUpperLetter in Hu. bool_hyps.
    destruct s as [| x s'].
    { destruct n; split; discriminate. }
    destruct n as [| n]; [cbn [length] in Hn; lia |].
    apply Forall_cons in Hs as [Hx Hs']. cbn [length] in Hn.
    cbn [spells]. unfold letterOf, isUpperLetter.
    destruct (Z.ltb_spec x RuneSelf) as [Hlow | Hhigh].
    + rewrite Map_loop_ascii by lia.
      assert (HnotC4 : (x =? 0xC4) = false)
        by (apply Z.eqb_neq; unfold RuneSelf in Hlow; lia).
      rewrite HnotC4, andb_false_r, andb_false_l, orb_false_r.
      rewrite andb_true_iff, <- (IH n s') by (assumption || lia).
      split.
      * intros [= Hup Hrest]. split; [| exact Hrest].
        destruct ((0x61 <=? x) && (x <=? 0x7A)) eqn:E; bool_hyps.
        -- apply orb_true_iff. right.
           apply andb_true_iff. split.
           ++ apply andb_true_iff. split; apply Z.leb_le; lia.
           ++ apply Z.eqb_eq. lia.
        -- apply orb_true_iff. left. apply Z.eqb_eq. lia.
      * intros [Hletter Hrest]. rewrite Hrest. f_equal.
        apply orb_true_iff in Hletter as [Hletter | Hletter]; bool_hyps.
        -- subst x.
           destruct ((0x61 <=? u) && (u <=? 0x7A)) eqn:E; bool_hyps;
             [lia | reflexivity].
        -- subst x.
           destruct ((0x61 <=? u + 0x20) && (u + 0x20 <=? 0x7A)) eqn:E.
           ++ lia.
           ++ apply andb_false_iff in E as [E | E]; bool_hyps; lia.
    + assert (Hnot : ((x =? u) || (0x41 <=? u) && (u <=? 0x5A)
                                  && (x =? u + 0x20)) = false).
      { unfold RuneSelf in Hhigh. apply orb_false_iff. split.
        - apply Z.eqb_neq. lia.
        - apply andb_false_iff. right. apply Z.eqb_neq. lia. }
      rewrite Hnot, andb_false_l, orb_false_l.
      destruct (Map_loop_high n x s' Hhigh)
        as [(-> & s'' & ->) | (b & tl & Heq & Hb)].
      * rewrite Map_loop_dotless. cbn [andb Z.eqb Pos.eqb].
        apply Forall_cons in Hs' as [_ Hs'']. cbn [length] in Hn.
        rewrite andb_true_r.
        change (0xC4 =? 0xC4) with true. change (0xB1 =? 0xB1) with true.
        cbn [andb]. rewrite andb_true_iff.
        rewrite <- (IH n s'') by (assumption || lia).
        split.
        -- intros [= <- Hrest]. split; [reflexivity | exact Hrest].
        -- intros [Hi Hrest]. bool_hyps. subst u. rewrite Hrest.
           reflexivity.
      * split.
        -- rewrite Heq. intros [= -> _]. unfold RuneSelf in Hb. lia.
        -- intros Hsp. exfalso.
           destruct (Z.eq_dec x 0xC4) as [-> | Hne].
           ++ destruct s' as [| y s''];
                [rewrite !andb_false_r in Hsp; discriminate |].
              destruct (Z.eq_dec y 0xB1) as [-> | Hy].
              ** rewrite Map_loop_dotless in Heq. injection Heq as <- _.
                 unfold RuneSelf in Hb. lia.
              ** apply Z.eqb_neq in Hy. rewrite Hy in Hsp.
                 rewrite !andb_false_r in Hsp. discriminate.
           ++ apply Z.eqb_neq in Hne. rewrite Hne in Hsp.
              rewrite andb_false_r, andb_false_l in Hsp. discriminate.
Qed.

(** On a string of ASCII bytes the ASCII path and the rune path agree. *)
Lemma asciiToUpper_Map (s : string) :
  forallb (fun c => c <? RuneSelf) (stringBytes s) = true ->
  asciiToUpper s = bytesString (Map toUpper (stringBytes s)).
Proof.
  unfold Map. induction s as [| c s IH]; intros Hascii; [reflexivity |].
  rewrite stringBytes_cons in *. cbn [forallb] in Hascii.
  apply andb_true_iff in Hascii as [Hc Hs]. bool_hyps.
  pose proof (Nat2Z.is_nonneg (nat_of_ascii c)) as Hnn.
  cbn [length]. rewrite Map_loop_ascii by lia.
  rewrite bytesString_cons, <- IH by exact Hs.
  cbn [asciiToUpper]. f_equal. unfold upperByte.
  set (n := nat_of_ascii c) in *.
  destruct ((0x61 <=? Z.of_nat n) && (Z.of_nat n <=? 0x7A)) eqn:E.
  - bool_hyps.
    destruct (Nat.leb_spec 97 n); [| lia].
    destruct (Nat.leb_spec n 122); [| lia].
    cbn [andb]. f_equal. lia.
  - rewrite Nat2Z.id.
    assert (Hn : ((97 <=? n)%nat && (n <=? 122)%nat) = false).
    { destruct (Nat.leb_spec 97 n); [| reflexivity].
      destruct (Nat.leb_spec n 122); [| reflexivity].
      apply andb_false_iff in E as [E | E]; bool_hyps; lia. }
    rewrite Hn. subst n. symmetry. apply ascii_nat_embedding.
Qed.

Lemma strings_ToUpper_Map (s : string) :
  strings_ToUpper To_UpperCase s
  = bytesString (Map toUpper (stringBytes s)).
Proof.
  unfold strings_ToUpper.
  destruct (forallb (fun c => c <? RuneSelf) (stringBytes s)) eqn:Hascii;
    [apply asciiToUpper_Map; exact Hascii | reflexivity].
Qed.

(** Comparing the upper-cased string with a word of upper-case letters
    (an S apart) is comparing up to case, a dotless i counting as an I. *)
Lemma strings_ToUpper_eqIgnoreCaseDotless (s word : string) :
  Forall (fun u => isUpperLetter u = true /\ u <> 0x53) (stringBytes word) ->
  String.eqb (strings_ToUpper To_UpperCase s) word
  = eqIgnoreCaseDotless s word.
Proof.
  intros Hword. unfold eqIgnoreCaseDotless. rewrite strings_ToUpper_Map.
  apply eq_true_iff_eq. rewrite String.eqb_eq.
  rewrite <- (Map_loop_spells _ Hword (length (stringBytes s)));
    [| lia
     | eapply Forall_impl; [apply stringBytes_range | cbn; intros; lia]].
  unfold Map. split.
  - intros <-. rewrite stringBytes_bytesString; [reflexivity |].
    apply Map_loop_bytes.
  - intros ->. apply bytesString_stringBytes.
Qed.

(** The test of [tryRecoverRow] on a column. *)
Lemma isIntegerPk_integerKeyDotless (col : ColumnInfo) :
  isIntegerPk (strings_ToUpper To_UpperCase) col = integerKeyDotless col.
Proof.
  unfold isIntegerPk, integerKeyDotless. f_equal.
  apply strings_ToUpper_eqIgnoreCaseDotless.
  repeat constructor; discriminate.
Qed.

End UpperCase.

Lemma spells_without_dotless (word s : list Z) :
  ~ In 0xC4 s -> spells true word s = spells false word s.
Proof.
  revert s. induction word as [| u word IH]; intros s Hs; [reflexivity |].
  destruct s as [| x s']; [reflexivity |]. cbn [spells].
  assert (Hx : (x =? 0xC4) = false)
    by (apply Z.eqb_neq; intros ->; apply Hs; left; reflexivity).
  rewrite Hx, IH by (intros Hin; apply Hs; right; exact Hin).
  rewrite andb_false_r. reflexivity.
Qed.

Lemma insertVector_ext (isKey isKey' : ColumnInfo -> bool) (rowID : Z)
    (cols : list ColumnInfo) (values : list Value) :
  (forall col, isKey col = isKey' col) ->
  insertVector isKey rowID cols values
  = insertVector isKey' rowID cols values.
Proof.
  intros Hext. unfold insertVector. revert values.
  induction cols as [| col cols IH]; intros [| v values]; try reflexivity.
  cbn [zip_with]. rewrite IH. unfold substituteRowID. rewrite Hext.
  reflexivity.
Qed.

(** ** The claims *)

(** C1 (readVarint, ninth byte).  The source masks the ninth byte with 0x7f
    like the eight before it: on eight continuation bytes followed by 0xFF
    it returns width 9 with value 0x7F, where the format (and the claim)
    give 0xFF. *)
Theorem readVarint_ninth_byte_masked :
  readVarint (x80x8 ++ [xff]) = Ok (0x7f, 9).
Proof. vm_compute. reflexivity. Qed.

(** C3 (parseRecord, header length below its own width).  On the payload
    [0x00] the header length is 0 and its varint is 1 byte wide; the guard
    only rejects header lengths above [len(payload)], so the source goes on
    to evaluate [payload[1:0]] and panics instead of returning an error. *)
Theorem parseRecord_panics_on_zero_header_length :
  parseRecord [x00] = Panic (SliceLowAboveHigh 1 0).
Proof. vm_compute. reflexivity. Qed.

(** C2 (processPage never fails on a malformed page).  A leaf page with one
    in-range cell whose record is the byte 0x00 makes [parseRecord] panic,
    and [processPage] with it, whatever the schemas and the sink are. *)
Theorem processPage_panics_on_short_header_length :
  forall (DB : Type) (Exec : DB -> string -> list Value -> DB * bool)
         (ToUpper : string -> string) (tables : list TableInfo) (outDB : DB),
    processPage DB Exec ToUpper badPage 1 tables outDB
    = (outDB, [], Panic (SliceLowAboveHigh 1 0)).
Proof. intros. vm_compute. reflexivity. Qed.

(** C4 (sign extension of the 24- and 48-bit integers).  For every 3-byte
    and every 6-byte body, whatever follows it in the buffer, the value is
    the most-significant byte read as a signed 8-bit quantity (a byte of
    0x80 or more counts as that byte minus 256), shifted above the
    remaining bytes, which are read unsigned; exactly 3 (resp. 6) bytes
    are consumed.  So the sign of the result is bit 7 of the first byte
    and of no other.  The four examples decode to -65536, -1, -8388608
    and -1. *)
Theorem parseSerialType_sign_extension :
  (forall (b0 b1 b2 : byte) (rest : list byte),
      parseSerialType 3 (b0 :: b1 :: b2 :: rest)
      = Ok (VInt ((if byteZ b0 <? 0x80 then byteZ b0 else byteZ b0 - 0x100)
                  * 2 ^ 16
                  + byteZ b1 * 2 ^ 8 + byteZ b2), 3))
  /\ (forall (b0 b1 b2 b3 b4 b5 : byte) (rest : list byte),
        parseSerialType 5 (b0 :: b1 :: b2 :: b3 :: b4 :: b5 :: rest)
        = Ok (VInt ((if byteZ b0 <? 0x80 then byteZ b0
                     else byteZ b0 - 0x100) * 2 ^ 40
                    + byteZ b1 * 2 ^ 32 + byteZ b2 * 2 ^ 24
                    + byteZ b3 * 2 ^ 16 + byteZ b4 * 2 ^ 8 + byteZ b5), 6))
  /\ parseSerialType 3 [xff; x00; x00] = Ok (VInt (-65536), 3)
  /\ parseSerialType 3 [xff; xff; xff] = Ok (VInt (-1), 3)
  /\ parseSerialType 3 [x80; x00; x00] = Ok (VInt (-8388608), 3)
  /\ parseSerialType 5 [xff; xff; xff; xff; xff; xff] = Ok (VInt (-1), 6).
Proof.
  split; [| split; [| repeat split; vm_compute; reflexivity]].
  - intros b0 b1 b2 rest.
    pose proof (parseSerialType_table 3 (b0 :: b1 :: b2 :: rest)
                  ltac:(pow_consts; lia)) as [_ Htab].
    cbn [serialWidth] in Htab.
    pose proof (len_nonneg rest) as Hrest.
    destruct (Z.ltb_spec (len (b0 :: b1 :: b2 :: rest)) 3) as [Hlen | _];
      [rewrite !len_cons in Hlen; lia |].
    rewrite Htab. norm_take. do 3 f_equal.
    cbn [serialValue]. f_equal.
    change (8 * len [b0; b1; b2]) with 24.
    cbn [beUint fold_left]. byte_ranges. unfold signed.
    rewrite (Z.mod_small _ (2 ^ 24)) by (pow_consts; lia).
    change (2 ^ (24 - 1)) with 8388608. pow_consts.
    match goal with |- context [?x <? 8388608] =>
      destruct (Z.ltb_spec x 8388608) end;
    destruct (Z.ltb_spec (byteZ b0) 128); lia.
  - intros b0 b1 b2 b3 b4 b5 rest.
    pose proof (parseSerialType_table 5
                  (b0 :: b1 :: b2 :: b3 :: b4 :: b5 :: rest)
                  ltac:(pow_consts; lia)) as [_ Htab].
    cbn [serialWidth] in Htab.
    pose proof (len_nonneg rest) as Hrest.
    destruct (Z.ltb_spec (len (b0 :: b1 :: b2 :: b3 :: b4 :: b5 :: rest)) 6)
      as [Hlen | _]; [rewrite !len_cons in Hlen; lia |].
    rewrite Htab. norm_take. do 3 f_equal.
    cbn [serialValue]. f_equal.
    change (8 * len [b0; b1; b2; b3; b4; b5]) with 48.
    cbn [beUint fold_left]. byte_ranges. unfold signed.
    rewrite (Z.mod_small _ (2 ^ 48)) by (pow_consts; lia).
    change (2 ^ (48 - 1)) with 140737488355328. pow_consts.
    match goal with |- context [?x <? 140737488355328] =>
      destruct (Z.ltb_spec x 140737488355328) end;
    destruct (Z.ltb_spec (byteZ b0) 128); lia.
Qed.




(** C6 (the serial-type table).  For every code with a row in the table,
    [parseSerialType] returns a decode error on a buffer shorter than the
    body width of the code, and otherwise the value of the table read
    from the first [w] bytes, together with [w]: null for 0; big-endian
    two's-complement integers of 1, 2, 3, 4, 6 and 8 bytes for 1..6; the
    binary64 with the 8 big-endian bytes as its bits for 7; the integers 0
    and 1 for 8 and 9; a blob of (code-12)/2 bytes for even codes from 12
    and a text of (code-13)/2 bytes for odd codes from 13. *)
Theorem parseSerialType_conforms (t : Z) (buf : list byte) (w : Z) :
  0 <= t < 2 ^ 64 ->
  serialWidth t = Some w ->
  (len buf < w -> exists e, parseSerialType t buf = Err e)
  /\ (w <= len buf ->
      parseSerialType t buf = Ok (serialValue t (take (Z.to_nat w) buf), w)).
Proof.
  intros Ht Hw. pose proof (parseSerialType_table t buf Ht) as Htab.
  rewrite Hw in Htab. destruct Htab as [_ Htab].
  destruct (Z.ltb_spec (len buf) w); split; intros; (lia || exact Htab).
Qed.

Lemma parseSerialType_conforms_witness :
  0 <= 2 < 2 ^ 64 /\ serialWidth 2 = Some 2
  /\ parseSerialType 2 [xff; xfe] = Ok (VInt (-2), 2).
Proof.
  split; [lia |]. split; [reflexivity |].
  apply (parseSerialType_conforms 2 [xff; xfe] 2); [lia | reflexivity |].
  vm_compute. discriminate.
Defined.

(** C7 (reserved codes).  Codes 10 and 11 are a decode error on every
    buffer. *)
Theorem parseSerialType_reserved (buf : list byte) :
  parseSerialType 10 buf = Err "unknown serial type"
  /\ parseSerialType 11 buf = Err "unknown serial type".
Proof. split; reflexivity. Qed.

(** C8 (width of a varint).  [readVarint] always returns; its width is 0
    exactly when the buffer is empty or is shorter than 9 bytes and made of
    continuation bytes only; on 9 bytes or more the width is between 1 and
    9, and it is 9 after eight continuation bytes whatever the ninth byte
    is. *)
Theorem readVarint_width (buf : list byte) :
  exists v n,
    readVarint buf = Ok (v, n)
    /\ (n = 0 <-> buf = [] \/ (Forall highBit buf /\ len buf < 9))
    /\ (9 <= len buf -> 1 <= n <= 9)
    /\ (9 <= len buf -> Forall highBit (take 8 buf) -> n = 9).
Proof.
  destruct (readVarint_loop_spec 9 buf 0 0)
    as (v & n & Heq & _ & Hn & _ & Hz & H9); try lia.
  change (drop (Z.to_nat 0) buf) with buf in *.
  exists v, n. split; [exact Heq |]. split; [| split].
  - split.
    + intros Hn0. right. apply Hz in Hn0. tauto.
    + intros [-> | [Hall Hlen]]; apply Hz.
      * split; [unfold len; simpl; lia | constructor].
      * tauto.
  - intros Hlen. destruct (Z.eq_dec n 0) as [Hn0 | Hn0]; [| lia].
    apply Hz in Hn0. lia.
  - exact H9.
Qed.

(** C9 (pages that are not table leaves).  When the byte at the header
    offset (100 on page 0, else 0) is not 0x0D -- or the page is too short
    to have one -- [processPage] makes no sink call, leaves the database
    as it was and returns [nil]. *)
Theorem processPage_skips_non_leaf :
  forall (DB : Type) (Exec : DB -> string -> list Value -> DB * bool)
         (ToUpper : string -> string) (pageData : list byte)
         (pageIndex : Z) (tables : list TableInfo) (outDB : DB),
    pageData !! Z.to_nat (headerOffsetOf pageIndex) <> Some x0d ->
    processPage DB Exec ToUpper pageData pageIndex tables outDB
    = (outDB, [], Ok tt).
Proof.
  intros DB Exec ToUpper pageData pageIndex tables outDB Hflag.
  unfold processPage. fold (headerOffsetOf pageIndex).
  assert (Hh : 0 <= headerOffsetOf pageIndex)
    by (unfold headerOffsetOf; destruct (pageIndex =? 0); lia).
  destruct (Z.leb_spec (len pageData) (headerOffsetOf pageIndex));
    [reflexivity |].
  destruct (index_in_range pageData (headerOffsetOf pageIndex) ltac:(lia))
    as (flag & Hidx & Hlook).
  rewrite Hidx.
  destruct (Z.eqb_spec (byteZ flag) 13) as [Heq | Hne]; [| reflexivity].
  exfalso. apply Hflag. rewrite Hlook. f_equal.
  apply byteZ_inj. exact Heq.
Qed.

Lemma processPage_skips_non_leaf_witness :
  zeroPage !! Z.to_nat (headerOffsetOf 0) <> Some x0d
  /\ processPage Z pickySink asciiToUpper zeroPage 0 [t_a; t_b] 0
     = (0, [], Ok tt).
Proof.
  assert (H : zeroPage !! Z.to_nat (headerOffsetOf 0) <> Some x0d)
    by (vm_compute; discriminate).
  split; [exact H |].
  apply (processPage_skips_non_leaf Z pickySink asciiToUpper zeroPage 0
           [t_a; t_b] 0 H).
Defined.

(** C10 as stated fails: on a 512-byte page whose 200 pointers lead to one
    two-column cell, with two two-column schemas and a sink that refuses
    the first, [processPage] makes 400 sink insert calls, more than
    (512 - 8) / 2 = 252. *)
Lemma processPage_sink_calls_exceed_slots :
  ~ (len (sinkCalls
            (processPage Z pickySink asciiToUpper crowdedPage 1
               [t_a; t_b] 0).1.2)
     <= (len crowdedPage - 8) / 2).
Proof. vm_compute. intros H. apply H. reflexivity. Qed.

(** C10, amended.  On a page of at least 108 bytes, whatever its cell
    count says, [processPage] hands at most (PageSize - 8) / 2 rows to
    [tryRecoverRow]; each row costs at most one sink insert call per schema
    and at most one successful one, so the successful inserts are at most
    (PageSize - 8) / 2 as well; and it never reads a byte at or beyond
    offset PageSize: an index or a slice reaching there is an
    out-of-range fault, and the scan ends in none. *)
Theorem processPage_rows_bounded :
  forall (DB : Type) (Exec : DB -> string -> list Value -> DB * bool)
         (ToUpper : string -> string) (pageData : list byte)
         (pageIndex : Z) (tables : list TableInfo) (outDB : DB),
    108 <= len pageData ->
    exists outDB' rows r,
      processPage DB Exec ToUpper pageData pageIndex tables outDB
      = (outDB', rows, r)
      /\ len rows <= (len pageData - 8) / 2
      /\ Forall (oneAttempt tables) rows
      /\ len (placed (sinkCalls rows)) <= (len pageData - 8) / 2
      /\ (forall e, r <> Err e)
      /\ (forall f, r = Panic f -> outsideSlice f = false).
Proof.
  intros DB Exec ToUpper pageData pageIndex tables outDB Hlen.
  destruct (processPage_bounded DB Exec ToUpper pageData pageIndex tables
              outDB Hlen) as (db' & rows & r & Heq & Hb & Hrows & Hr).
  exists db', rows, r. split; [exact Heq |]. split; [exact Hb |].
  split; [exact Hrows |]. split.
  { pose proof (placed_rows tables rows Hrows). lia. }
  destruct Hr as [-> | (lo & hi & -> & _)]; split; intros; try discriminate.
  injection H as <-. reflexivity.
Qed.

Lemma processPage_rows_bounded_witness :
  108 <= len crowdedPage
  /\ exists outDB' rows r,
       processPage Z pickySink asciiToUpper crowdedPage 1 [t_a; t_b] 0
       = (outDB', rows, r)
       /\ len rows <= (len crowdedPage - 8) / 2
       /\ Forall (oneAttempt [t_a; t_b]) rows
       /\ len (placed (sinkCalls rows)) <= (len crowdedPage - 8) / 2
       /\ (forall e, r <> Err e)
       /\ (forall f, r = Panic f -> outsideSlice f = false).
Proof.
  assert (H : 108 <= len crowdedPage) by (vm_compute; discriminate).
  split; [exact H |].
  apply (processPage_rows_bounded Z pickySink asciiToUpper crowdedPage 1
           [t_a; t_b] 0 H).
Defined.

(** * Further properties *)

(** ** readVarint: value and consumed bytes *)

Lemma len_pos_of_nonempty {A} (s : list A) : s <> [] -> 0 < len s.
Proof.
  destruct s; [congruence |]. intros _. rewrite len_cons.
  pose proof (len_nonneg s). lia.
Qed.

Lemma low7_snoc (bs : list byte) (b : byte) :
  low7 (bs ++ [b]) = low7 bs * 128 + byteZ b mod 128.
Proof. unfold low7. rewrite fold_left_app. reflexivity. Qed.

Lemma lookup_nat_Z {A} (s : list A) (i : Z) (x : A) :
  0 <= i -> s !! Z.to_nat i = Some x ->
  take (Z.to_nat (i + 1)) s = take (Z.to_nat i) s ++ [x].
Proof.
  intros Hi Hx. replace (Z.to_nat (i + 1)) with (S (Z.to_nat i)) by lia.
  apply take_S_r. exact Hx.
Qed.

(** The loop entered at index [i] with the value of the first [i] bytes. *)
Lemma readVarint_loop_value (left : nat) (buf : list byte) (i v0 v n : Z) :
  0 <= i -> i + Z.of_nat left = 9 ->
  0 <= v0 < 2 ^ (7 * i) ->
  v0 = low7 (take (Z.to_nat i) buf) ->
  Forall highBit (take (Z.to_nat i) buf) ->
  readVarint_loop left buf i v0 = Ok (v, n) -> n <> 0 ->
  v = low7 (take (Z.to_nat n) buf)
  /\ Forall highBit (take (Z.to_nat (n - 1)) buf)
  /\ i <= n <= 9 /\ n <= len buf
  /\ 0 <= v < 2 ^ (7 * n)
  /\ (n < 9 -> exists b, buf !! Z.to_nat (n - 1) = Some b /\ byteZ b < 0x80).
Proof.
  revert i v0. induction left as [| left IH];
    intros i v0 Hi Hleft Hv0 Hval Hhigh Hloop Hn.
  - assert (i = 9) by lia. subst i. simpl in Hloop.
    destruct (Z.leb_spec 9 (len buf)); [| congruence].
    injection Hloop as <- <-.
    split; [exact Hval |]. split.
    { change (Z.to_nat (9 - 1)) with 8%nat.
      change (Z.to_nat 9) with 9%nat in Hhigh.
      replace (take 8 buf) with (take 8 (take 9 buf))
        by (rewrite take_take; reflexivity).
      apply Forall_take. exact Hhigh. }
    split; [lia |]. split; [lia |]. split; [exact Hv0 | lia].
  - simpl in Hloop.
    destruct (Z.leb_spec (len buf) i) as [Hlen | Hlen]; [congruence |].
    destruct (index_in_range buf i ltac:(lia)) as (b & Hidx & Hb).
    rewrite Hidx in Hloop. cbn [bind] in Hloop.
    assert (Hv56 : 0 <= v0 < 2 ^ 56).
    { split; [lia |]. eapply Z.lt_le_trans; [exact (proj2 Hv0) |].
      apply Z.pow_le_mono_r; lia. }
    rewrite varint_round in Hloop by exact Hv56.
    pose proof (byteZ_range b) as Hbr.
    pose proof (Z.mod_pos_bound (byteZ b) 128 ltac:(lia)) as Hm.
    assert (Hv' : 0 <= v0 * 128 + byteZ b mod 128 < 2 ^ (7 * (i + 1))).
    { replace (7 * (i + 1)) with (7 * i + 7) by lia.
      rewrite Z.pow_add_r by lia. change (2 ^ 7) with 128. lia. }
    assert (Htake : take (Z.to_nat (i + 1)) buf
                    = take (Z.to_nat i) buf ++ [b])
      by (apply lookup_nat_Z; [lia | exact Hb]).
    assert (Hval' : v0 * 128 + byteZ b mod 128
                    = low7 (take (Z.to_nat (i + 1)) buf)).
    { rewrite Htake, low7_snoc, <- Hval. reflexivity. }
    destruct (Z.ltb_spec (byteZ b) 0x80) as [Hlow | Hhi].
    + injection Hloop as <- <-.
      replace (i + 1 - 1) with i by lia.
      split; [exact Hval' |]. split; [exact Hhigh |].
      split; [lia |]. split; [lia |]. split; [exact Hv' |].
      intros _. exists b. split; [exact Hb | exact Hlow].
    + destruct (IH (i + 1) (v0 * 128 + byteZ b mod 128))
        as (H1 & H2 & H3 & H4 & H5 & H6); try assumption; try lia.
      { rewrite Htake. apply Forall_app. split; [exact Hhigh |].
        constructor; [exact Hhi | constructor]. }
      split; [exact H1 |]. split; [exact H2 |]. split; [lia |].
      split; [exact H4 |]. split; [exact H5 | exact H6].
Qed.

(** X1.  A varint of non-zero width [n] is the big-endian number made of
    the low seven bits of its [n] bytes; the bytes before the last are
    continuation bytes, and the last one has its high bit clear unless it
    is the ninth. *)
Theorem readVarint_value (buf : list byte) (v n : Z) :
  readVarint buf = Ok (v, n) -> n <> 0 ->
  v = low7 (take (Z.to_nat n) buf)
  /\ 1 <= n <= 9 /\ n <= len buf
  /\ 0 <= v < 2 ^ (7 * n)
  /\ Forall highBit (take (Z.to_nat (n - 1)) buf)
  /\ (n < 9 -> exists b, buf !! Z.to_nat (n - 1) = Some b /\ byteZ b < 0x80).
Proof.
  intros Hread Hn.
  destruct (readVarint_loop_value 9 buf 0 0 v n)
    as (H1 & H2 & H3 & H4 & H5 & H6);
    try assumption; try lia; try reflexivity.
  { constructor. }
  split; [exact H1 |]. split; [lia |]. split; [exact H4 |].
  split; [exact H5 |]. split; [exact H2 | exact H6].
Qed.

Lemma readVarint_value_witness :
  readVarint [x81; x00; xff] = Ok (128, 2) /\ 2 <> 0
  /\ 128 = low7 (take (Z.to_nat 2) [x81; x00; xff]).
Proof.
  assert (H : readVarint [x81; x00; xff] = Ok (128, 2)) by reflexivity.
  assert (H2 : 2 <> 0) by lia.
  split; [exact H |]. split; [exact H2 |].
  exact (proj1 (readVarint_value [x81; x00; xff] 128 2 H H2)).
Defined.

(** ** readVarint: bytes after the varint do not matter *)

Lemma readVarint_loop_ge (left : nat) (buf : list byte) (i v0 v n : Z) :
  0 <= i -> i + Z.of_nat left = 9 ->
  readVarint_loop left buf i v0 = Ok (v, n) -> n <> 0 ->
  i <= n /\ (left <> O -> i < n).
Proof.
  revert i v0. induction left as [| left IH]; intros i v0 Hi Hleft Hloop Hn.
  - simpl in Hloop. destruct (9 <=? len buf); injection Hloop as <- <-; lia.
  - simpl in Hloop.
    destruct (Z.leb_spec (len buf) i) as [Hlen | Hlen]; [congruence |].
    destruct (index_in_range buf i ltac:(lia)) as (b & Hidx & Hb).
    rewrite Hidx in Hloop. cbn [bind] in Hloop.
    destruct (byteZ b <? 0x80).
    + injection Hloop as <- <-. lia.
    + apply IH in Hloop; lia.
Qed.

Lemma readVarint_loop_prefix (left : nat) (buf buf' : list byte)
    (i v0 v n : Z) :
  0 <= i -> i + Z.of_nat left = 9 ->
  readVarint_loop left buf i v0 = Ok (v, n) -> n <> 0 ->
  take (Z.to_nat n) buf' = take (Z.to_nat n) buf ->
  readVarint_loop left buf' i v0 = Ok (v, n).
Proof.
  revert i v0. induction left as [| left IH];
    intros i v0 Hi Hleft Hloop Hn Htake.
  - simpl in *. destruct (Z.leb_spec 9 (len buf)) as [Hlen | Hlen];
      [| congruence].
    injection Hloop as <- <-.
    assert (Hl : length (take (Z.to_nat 9) buf') = 9%nat).
    { rewrite Htake, length_take. unfold len in Hlen. lia. }
    rewrite length_take in Hl.
    destruct (Z.leb_spec 9 (len buf')); [reflexivity |].
    unfold len in *. lia.
  - pose proof (readVarint_loop_ge _ _ _ _ _ _ Hi Hleft Hloop Hn)
      as [_ Hlt]. specialize (Hlt ltac:(discriminate)).
    simpl in Hloop |- *.
    destruct (Z.leb_spec (len buf) i) as [Hlen | Hlen]; [congruence |].
    destruct (index_in_range buf i ltac:(lia)) as (b & Hidx & Hb).
    rewrite Hidx in Hloop. cbn [bind] in Hloop.
    assert (Hb' : buf' !! Z.to_nat i = Some b).
    { rewrite <- (lookup_take_lt buf' (Z.to_nat n)) by lia.
      rewrite Htake, lookup_take_lt by lia. exact Hb. }
    pose proof (lookup_lt_Some _ _ _ Hb') as Hlen'.
    destruct (Z.leb_spec (len buf') i); [unfold len in *; lia |].
    rewrite (index_lookup buf' i b Hi Hb'). cbn [bind].
    destruct (byteZ b <? 0x80); [exact Hloop |].
    apply IH; try assumption; lia.
Qed.

Lemma readVarint_prefix (buf buf' : list byte) (v n : Z) :
  readVarint buf = Ok (v, n) -> n <> 0 ->
  take (Z.to_nat n) buf' = take (Z.to_nat n) buf ->
  readVarint buf' = Ok (v, n).
Proof.
  intros Hread Hn Htake.
  apply (readVarint_loop_prefix 9 buf buf' 0 0 v n); try assumption; lia.
Qed.

Lemma readVarint_app (enc rest : list byte) (v : Z) :
  enc <> [] -> readVarint enc = Ok (v, len enc) ->
  readVarint (enc ++ rest) = Ok (v, len enc).
Proof.
  intros Hne Hread.
  assert (Hn : len enc <> 0).
  { destruct enc; [congruence |]. rewrite len_cons.
    pose proof (len_nonneg enc). lia. }
  apply (readVarint_prefix enc); [exact Hread | exact Hn |].
  unfold len. rewrite Nat2Z.id. rewrite take_app_length.
  rewrite take_ge by lia. reflexivity.
Qed.

(** X2.  A successful [readVarint] looks at the bytes of the varint only:
    any buffer that starts with the same [n] bytes decodes to the same
    value and width, so what follows a varint in a cell or a header never
    changes it. *)
Theorem readVarint_ignores_rest (buf buf' : list byte) (v n : Z) :
  readVarint buf = Ok (v, n) -> n <> 0 ->
  take (Z.to_nat n) buf' = take (Z.to_nat n) buf ->
  readVarint buf' = Ok (v, n).
Proof. exact (readVarint_prefix buf buf' v n). Qed.

Lemma readVarint_ignores_rest_witness :
  readVarint [x81; x00; xff] = Ok (128, 2) /\ 2 <> 0
  /\ take (Z.to_nat 2) [x81; x00] = take (Z.to_nat 2) [x81; x00; xff]
  /\ readVarint [x81; x00] = Ok (128, 2).
Proof.
  assert (H : readVarint [x81; x00; xff] = Ok (128, 2)) by reflexivity.
  assert (H2 : 2 <> 0) by lia.
  assert (H3 : take (Z.to_nat 2) [x81; x00]
               = take (Z.to_nat 2) [x81; x00; xff]) by reflexivity.
  split; [exact H |]. split; [exact H2 |]. split; [exact H3 |].
  exact (readVarint_ignores_rest [x81; x00; xff] [x81; x00] 128 2 H H2 H3).
Defined.

(** ** parseSerialType: nothing is lost *)

Lemma beUint_snoc (bs : list byte) (b : byte) :
  beUint (bs ++ [b]) = beUint bs * 256 + byteZ b.
Proof. unfold beUint. rewrite fold_left_app. reflexivity. Qed.

Lemma beUint_range (bs : list byte) : 0 <= beUint bs < 2 ^ (8 * len bs).
Proof.
  induction bs as [| b bs IH] using rev_ind.
  - unfold beUint, len. simpl. lia.
  - rewrite beUint_snoc, len_app. pose proof (byteZ_range b).
    pose proof (len_nonneg bs).
    replace (8 * (len bs + len [b])) with (8 * len bs + 8)
      by (unfold len; simpl; lia).
    rewrite Z.pow_add_r by lia. change (2 ^ 8) with 256. lia.
Qed.

Lemma beUint_inj (xs ys : list byte) :
  length xs = length ys -> beUint xs = beUint ys -> xs = ys.
Proof.
  revert ys. induction xs as [| x xs IH] using rev_ind; intros ys Hlen Heq.
  - destruct ys; [reflexivity | discriminate Hlen].
  - destruct ys as [| y ys _] using rev_ind.
    { rewrite length_app in Hlen. simpl in Hlen. lia. }
    rewrite !length_app in Hlen. simpl in Hlen.
    rewrite !beUint_snoc in Heq.
    pose proof (byteZ_range x). pose proof (byteZ_range y).
    assert (Hb : byteZ x = byteZ y) by lia.
    apply byteZ_inj in Hb. subst y.
    f_equal. apply IH; lia.
Qed.

Lemma signed_inj (w a b : Z) :
  0 < w -> 0 <= a < 2 ^ w -> 0 <= b < 2 ^ w ->
  signed w a = signed w b -> a = b.
Proof.
  intros Hw Ha Hb. unfold signed.
  rewrite !Z.mod_small by assumption.
  assert (Hp : 2 ^ w = 2 * 2 ^ (w - 1)).
  { rewrite <- Z.pow_succ_r by lia. f_equal. lia. }
  destruct (Z.ltb_spec a (2 ^ (w - 1))), (Z.ltb_spec b (2 ^ (w - 1))); lia.
Qed.

Lemma serialValue_int_inj (w : Z) (xs ys : list byte) :
  0 < w -> len xs = w -> len ys = w ->
  VInt (signed (8 * len xs) (beUint xs)) = VInt (signed (8 * len ys) (beUint ys)) ->
  xs = ys.
Proof.
  intros Hw Hx Hy Heq. injection Heq as Heq.
  pose proof (beUint_range xs) as Hrx. pose proof (beUint_range ys) as Hry.
  rewrite Hx in *. rewrite Hy in *.
  apply signed_inj in Heq; try assumption; try lia.
  apply beUint_inj; [unfold len in *; lia | exact Heq].
Qed.

Lemma serialValue_inj (t w : Z) (xs ys : list byte) :
  0 <= t -> serialWidth t = Some w -> len xs = w -> len ys = w ->
  serialValue t xs = serialValue t ys -> xs = ys.
Proof.
  intros Ht Hw Hx Hy Heq.
  assert (Hnil : w = 0 -> xs = ys).
  { intros ->. destruct xs; [| unfold len in Hx; simpl in Hx; lia].
    destruct ys; [reflexivity | unfold len in Hy; simpl in Hy; lia]. }
  assert (Hcases : t = 0 \/ t = 1 \/ t = 2 \/ t = 3 \/ t = 4 \/ t = 5 \/
                   t = 6 \/ t = 7 \/ t = 8 \/ t = 9 \/ t = 10 \/ t = 11 \/
                   12 <= t) by lia.
  destruct Hcases as [-> | [-> | [-> | [-> | [-> | [-> | [-> | [-> | [-> |
                     [-> | [-> | [-> | Hge]]]]]]]]]]]];
    try (injection Hw as <-);
    try (apply Hnil; reflexivity);
    try (cbn [serialValue] in Heq;
         eapply serialValue_int_inj; [| exact Hx | exact Hy | exact Heq];
         lia).
  - cbn [serialValue] in Heq. injection Heq as Heq.
    apply beUint_inj; [unfold len in *; lia | exact Heq].
  - discriminate Hw.
  - discriminate Hw.
  - rewrite !serialValue_ge12 in Heq by exact Hge.
    destruct (Z.even t); congruence.
Qed.

(** X3.  Decoding a field loses nothing: two buffers from which one code
    decodes the same value consume the same bytes. *)
Theorem parseSerialType_injective (t : Z) (buf1 buf2 : list byte)
    (val : Value) (w : Z) :
  0 <= t < 2 ^ 64 ->
  parseSerialType t buf1 = Ok (val, w) ->
  parseSerialType t buf2 = Ok (val, w) ->
  take (Z.to_nat w) buf1 = take (Z.to_nat w) buf2.
Proof.
  intros Ht H1 H2.
  pose proof (parseSerialType_table t buf1 Ht) as T1.
  pose proof (parseSerialType_table t buf2 Ht) as T2.
  destruct (serialWidth t) as [w' |] eqn:Hw; [| congruence].
  destruct T1 as [Hw0 T1]. destruct T2 as [_ T2].
  destruct (Z.ltb_spec (len buf1) w'); [destruct T1; congruence |].
  destruct (Z.ltb_spec (len buf2) w'); [destruct T2; congruence |].
  rewrite T1 in H1. rewrite T2 in H2.
  injection H1 as Hv1 <-. injection H2 as Hv2.
  apply (serialValue_inj t w'); try assumption; try lia.
  - apply len_take. lia.
  - apply len_take. lia.
  - congruence.
Qed.

Lemma parseSerialType_injective_witness :
  0 <= 2 < 2 ^ 64
  /\ parseSerialType 2 [xff; xfe; x01] = Ok (VInt (-2), 2)
  /\ parseSerialType 2 [xff; xfe; x02] = Ok (VInt (-2), 2)
  /\ take (Z.to_nat 2) [xff; xfe; x01] = take (Z.to_nat 2) [xff; xfe; x02].
Proof.
  assert (H0 : 0 <= 2 < 2 ^ 64) by lia.
  assert (H1 : parseSerialType 2 [xff; xfe; x01] = Ok (VInt (-2), 2))
    by reflexivity.
  assert (H2 : parseSerialType 2 [xff; xfe; x02] = Ok (VInt (-2), 2))
    by reflexivity.
  split; [exact H0 |]. split; [exact H1 |]. split; [exact H2 |].
  exact (parseSerialType_injective 2 _ _ _ 2 H0 H1 H2).
Defined.

(** ** parseSerialType: range of the integers *)

(** X4.  An integer of code 1..6 lies in the two's-complement range of
    its width: the value decoded from [w] body bytes is at least
    [-2^(8w-1)] and below [2^(8w-1)]. *)
Theorem parseSerialType_int_range (t : Z) (buf : list byte) (val : Value)
    (w : Z) :
  1 <= t <= 6 ->
  parseSerialType t buf = Ok (val, w) ->
  serialWidth t = Some w /\ 1 <= w <= 8
  /\ exists v, val = VInt v /\ - 2 ^ (8 * w - 1) <= v < 2 ^ (8 * w - 1).
Proof.
  intros Ht Hparse.
  pose proof (parseSerialType_table t buf ltac:(pow_consts; lia)) as Htab.
  assert (Hcases : t = 1 \/ t = 2 \/ t = 3 \/ t = 4 \/ t = 5 \/ t = 6) by lia.
  destruct Hcases as [-> | [-> | [-> | [-> | [-> | ->]]]]];
    cbn [serialWidth] in Htab |- *; destruct Htab as [_ Htab];
    match type of Htab with context [len buf <? ?k] =>
      destruct (Z.ltb_spec (len buf) k) as [Hs | Hl];
        [destruct Htab as [e He]; congruence |];
      rewrite Htab in Hparse; injection Hparse as <- <-;
      split; [reflexivity |]; split; [lia |];
      cbn [serialValue]; eexists; split; [reflexivity |];
      rewrite len_take by lia; apply signed_range; lia
    end.
Qed.

Lemma parseSerialType_int_range_witness :
  1 <= 3 <= 6
  /\ parseSerialType 3 [x80; x00; x00] = Ok (VInt (-8388608), 3)
  /\ serialWidth 3 = Some 3.
Proof.
  assert (H : 1 <= 3 <= 6) by lia.
  assert (H2 : parseSerialType 3 [x80; x00; x00] = Ok (VInt (-8388608), 3))
    by reflexivity.
  split; [exact H |]. split; [exact H2 |].
  exact (proj1 (parseSerialType_int_range 3 _ _ _ H H2)).
Defined.

(** ** parseRecord on a well-formed record *)

Lemma readTypes_fields (fields : list field) (done : list byte)
    (types : list Z) (rounds : nat) :
  Forall wellFormedField fields -> (length fields <= rounds)%nat ->
  readTypes rounds (done ++ concat (map fld_enc fields)) (len done) types
  = Ok (types ++ map fld_code fields).
Proof.
  revert done types rounds.
  induction fields as [| f fields IH]; intros done types rounds Hwf Hr.
  - simpl. rewrite !app_nil_r. destruct rounds; [reflexivity |].
    simpl. destruct (Z.ltb_spec (len done) (len done)); [lia | reflexivity].
  - apply Forall_cons in Hwf as [(Hne & Henc & _) Hwf].
    destruct rounds as [| rounds]; [simpl in Hr; lia |].
    cbn [readTypes map concat].
    assert (Hpos : 0 < len (fld_enc f)).
    { destruct (fld_enc f); [congruence |]. rewrite len_cons.
      pose proof (len_nonneg l). lia. }
    pose proof (len_nonneg done) as Hd.
    pose proof (len_nonneg (concat (map fld_enc fields))) as Hc.
    assert (Hlt : len done
                  < len (done ++ fld_enc f ++ concat (map fld_enc fields)))
      by (rewrite !len_app; lia).
    destruct (Z.ltb_spec (len done)
                (len (done ++ fld_enc f ++ concat (map fld_enc fields))));
      [| lia].
    rewrite sliceFrom_in_range by lia. cbn [bind].
    replace (Z.to_nat (len done)) with (length done) by (unfold len; lia).
    rewrite drop_app_length.
    rewrite (readVarint_app _ _ _ Hne Henc). cbn [bind].
    destruct (Z.eqb_spec (len (fld_enc f)) 0); [lia |].
    rewrite <- len_app, app_assoc.
    rewrite (IH (done ++ fld_enc f) (types ++ [fld_code f]) rounds Hwf)
      by (simpl in Hr; lia).
    rewrite <- app_assoc. reflexivity.
Qed.

Lemma readValues_fields (fields : list field) (done rest : list byte)
    (values : list Value) :
  Forall wellFormedField fields ->
  readValues (map fld_code fields)
    (done ++ concat (map fld_body fields) ++ rest) (len done) values
  = Ok (values ++ map fieldValue fields).
Proof.
  revert done values.
  induction fields as [| f fields IH]; intros done values Hwf.
  - simpl. rewrite app_nil_r. reflexivity.
  - apply Forall_cons in Hwf as [(Hne & Henc & Hw) Hwf].
    cbn [readValues map concat].
    pose proof (len_nonneg done) as Hd.
    rewrite sliceFrom_in_range by (rewrite len_app;
      pose proof (len_nonneg ((fld_body f ++ concat (map fld_body fields))
                              ++ rest)); lia).
    cbn [bind].
    replace (Z.to_nat (len done)) with (length done) by (unfold len; lia).
    rewrite drop_app_length.
    destruct (readVarint_total (fld_enc f)) as (c & n & Hc & Hcr & _).
    rewrite Henc in Hc. injection Hc as <- _.
    assert (Hc64 : 0 <= fld_code f < 2 ^ 64) by (pow_consts; lia).
    pose proof (parseSerialType_table (fld_code f)
                  ((fld_body f ++ concat (map fld_body fields)) ++ rest)
                  Hc64) as Htab.
    rewrite Hw in Htab. destruct Htab as [_ Htab].
    pose proof (len_nonneg (fld_body f)) as Hb.
    match type of Htab with context [len ?l <? _] =>
      destruct (Z.ltb_spec (len l) (len (fld_body f))) as [Hshort | _]
    end.
    { rewrite !len_app in Hshort.
      pose proof (len_nonneg (concat (map fld_body fields))).
      pose proof (len_nonneg rest). lia. }
    rewrite Htab. cbn [bind].
    replace (Z.to_nat (len (fld_body f))) with (length (fld_body f))
      by (unfold len; lia).
    rewrite <- !app_assoc, take_app_length.
    rewrite <- len_app.
    rewrite (app_assoc done (fld_body f)).
    change (serialValue (fld_code f) (fld_body f)) with (fieldValue f).
    rewrite (IH (done ++ fld_body f) (values ++ [fieldValue f]) Hwf).
    rewrite <- app_assoc. reflexivity.
Qed.

(** X5.  A well-formed record decodes to the values of its columns, in
    order: when the payload starts with its header-length varint, followed
    by one well-formed serial-type varint per column and then by the
    column bodies, [parseRecord] returns one value per column, each the
    value the table gives its code and body; bytes after the last body are
    ignored. *)
Theorem parseRecord_well_formed (hdr : list byte) (fields : list field)
    (trailing : list byte) :
  hdr <> [] ->
  readVarint hdr
  = Ok (len hdr + len (concat (map fld_enc fields)), len hdr) ->
  Forall wellFormedField fields ->
  parseRecord (hdr ++ concat (map fld_enc fields)
                   ++ concat (map fld_body fields) ++ trailing)
  = Ok (map fieldValue fields).
Proof.
  intros Hne Hhdr Hwf. unfold parseRecord.
  set (encs := concat (map fld_enc fields)) in *.
  set (bodies := concat (map fld_body fields)).
  rewrite (readVarint_app _ _ _ Hne Hhdr). cbn [bind].
  pose proof (len_nonneg encs) as He.
  pose proof (len_nonneg bodies) as Hb.
  pose proof (len_nonneg trailing) as Ht.
  assert (Hpos : 0 < len hdr).
  { destruct hdr; [congruence |]. rewrite len_cons.
    pose proof (len_nonneg hdr). lia. }
  destruct (readVarint_total hdr) as (h & n & Hh & Hhr & _).
  rewrite Hhdr in Hh. injection Hh as <- _.
  rewrite int_small by exact Hhr.
  destruct (Z.eqb_spec (len hdr) 0); [lia |].
  assert (Hlen : len (hdr ++ encs ++ bodies ++ trailing)
                 = len hdr + len encs + len bodies + len trailing)
    by (rewrite !len_app; lia).
  destruct (Z.ltb_spec (len (hdr ++ encs ++ bodies ++ trailing))
              (len hdr + len encs)); [lia |].
  cbn [orb].
  rewrite slice_in_range by lia. cbn [bind].
  rewrite sliceFrom_in_range by lia. cbn [bind].
  replace (Z.to_nat (len hdr)) with (length hdr) by (unfold len; lia).
  rewrite drop_app_length.
  replace (Z.to_nat (len hdr + len encs - len hdr)) with (length encs)
    by (unfold len; lia).
  rewrite take_app_length.
  replace (Z.to_nat (len hdr + len encs)) with (length (hdr ++ encs))
    by (rewrite length_app; unfold len; lia).
  rewrite (app_assoc hdr encs), drop_app_length.
  pose proof (readTypes_fields fields [] [] (length encs) Hwf) as Htypes.
  cbn [app] in Htypes. change (len (@nil byte)) with 0 in Htypes.
  fold encs in Htypes. rewrite Htypes; cycle 1.
  { clear -Hwf. subst encs. induction Hwf as [| f fields (Hne & _) _ IH].
    - simpl. lia.
    - cbn [map concat length]. rewrite length_app.
      destruct (fld_enc f); [congruence |]. simpl. lia. }
  cbn [bind].
  pose proof (readValues_fields fields [] trailing [] Hwf) as Hvals.
  cbn [app] in Hvals. change (len (@nil byte)) with 0 in Hvals.
  exact Hvals.
Qed.

Lemma parseRecord_well_formed_witness :
  [x03] <> []
  /\ parseRecord ([x03] ++ concat (map fld_enc twoFields)
                        ++ concat (map fld_body twoFields) ++ [xee])
     = Ok [VInt 5; VText [x61]].
Proof.
  assert (H1 : [x03] <> []) by discriminate.
  assert (H2 : readVarint [x03]
               = Ok (len [x03] + len (concat (map fld_enc twoFields)),
                     len [x03])) by reflexivity.
  assert (H3 : Forall wellFormedField twoFields).
  { repeat constructor; discriminate. }
  split; [exact H1 |].
  exact (parseRecord_well_formed [x03] twoFields [xee] H1 H2 H3).
Defined.

(** ** parseRecord: a body cut short *)

Lemma readValues_truncated (fields : list field) (body : list byte)
    (bodyIdx : Z) (values : list Value) :
  Forall wellFormedField fields -> 0 <= bodyIdx <= len body ->
  len body - bodyIdx < len (concat (map fld_body fields)) ->
  exists e, readValues (map fld_code fields) body bodyIdx values = Err e.
Proof.
  revert bodyIdx values.
  induction fields as [| f fields IH]; intros bodyIdx values Hwf Hidx Hshort.
  - exfalso. cbn [map concat] in Hshort.
    change (len (@nil byte)) with 0 in Hshort. lia.
  - apply Forall_cons in Hwf as [(Hne & Henc & Hw) Hwf].
    cbn [map concat readValues] in *. rewrite len_app in Hshort.
    rewrite sliceFrom_in_range by lia. cbn [bind].
    destruct (readVarint_total (fld_enc f)) as (c & n & Hc & Hcr & _).
    rewrite Henc in Hc. injection Hc as <- _.
    assert (Hc64 : 0 <= fld_code f < 2 ^ 64) by (pow_consts; lia).
    pose proof (parseSerialType_table (fld_code f)
                  (drop (Z.to_nat bodyIdx) body) Hc64) as Htab.
    rewrite Hw in Htab. destruct Htab as [Hw0 Htab].
    rewrite len_drop in Htab by lia.
    destruct (Z.ltb_spec (len body - bodyIdx) (len (fld_body f)))
      as [Hcut | Hfit].
    + destruct Htab as [e He]. exists e. rewrite He. reflexivity.
    + rewrite Htab. cbn [bind]. apply IH; [exact Hwf | lia | lia].
Qed.

(** X6.  A record whose body is cut short is a decode error, never a
    partial row: when the header is well formed but the payload ends
    before the last column body is complete, [parseRecord] returns an
    error. *)
Theorem parseRecord_truncated_body (hdr : list byte) (fields : list field)
    (body : list byte) :
  hdr <> [] ->
  readVarint hdr
  = Ok (len hdr + len (concat (map fld_enc fields)), len hdr) ->
  Forall wellFormedField fields ->
  len body < len (concat (map fld_body fields)) ->
  exists e,
    parseRecord (hdr ++ concat (map fld_enc fields) ++ body) = Err e.
Proof.
  intros Hne Hhdr Hwf Hshort. unfold parseRecord.
  set (encs := concat (map fld_enc fields)) in *.
  rewrite (readVarint_app _ _ _ Hne Hhdr). cbn [bind].
  pose proof (len_nonneg encs) as He. pose proof (len_nonneg body) as Hb.
  pose proof (len_pos_of_nonempty _ Hne) as Hpos.
  destruct (readVarint_total hdr) as (h & n & Hh & Hhr & _).
  rewrite Hhdr in Hh. injection Hh as <- _.
  rewrite int_small by exact Hhr.
  destruct (Z.eqb_spec (len hdr) 0); [lia |].
  destruct (Z.ltb_spec (len (hdr ++ encs ++ body)) (len hdr + len encs))
    as [Hlt | _]; [rewrite !len_app in Hlt; lia |].
  cbn [orb].
  rewrite slice_in_range by (rewrite ?len_app; lia). cbn [bind].
  rewrite sliceFrom_in_range by (rewrite ?len_app; lia). cbn [bind].
  replace (Z.to_nat (len hdr)) with (length hdr) by (unfold len; lia).
  rewrite drop_app_length.
  replace (Z.to_nat (len hdr + len encs - len hdr)) with (length encs)
    by (unfold len; lia).
  rewrite take_app_length.
  replace (Z.to_nat (len hdr + len encs)) with (length (hdr ++ encs))
    by (rewrite length_app; unfold len; lia).
  rewrite (app_assoc hdr encs), drop_app_length.
  pose proof (readTypes_fields fields [] [] (length encs) Hwf) as Htypes.
  cbn [app] in Htypes. change (len (@nil byte)) with 0 in Htypes.
  fold encs in Htypes. rewrite Htypes; cycle 1.
  { clear -Hwf. subst encs. induction Hwf as [| f fields (Hne & _) _ IH].
    - simpl. lia.
    - cbn [map concat length]. rewrite length_app.
      destruct (fld_enc f); [congruence |]. simpl. lia. }
  cbn [bind].
  apply readValues_truncated; [exact Hwf | lia | lia].
Qed.

Lemma parseRecord_truncated_body_witness :
  exists e,
    parseRecord ([x03] ++ concat (map fld_enc twoFields) ++ [x05]) = Err e.
Proof.
  apply (parseRecord_truncated_body [x03] twoFields [x05]).
  - discriminate.
  - reflexivity.
  - repeat constructor; discriminate.
  - vm_compute. reflexivity.
Defined.

(** ** parseRecord: when it panics *)

(** X7.  [parseRecord] panics exactly when the header-length varint of
    the payload is present and stands for a number below its own width;
    the fault is then the inverted slice [payload[n:headerLen]].  On
    every other payload it returns values or an error. *)
Theorem parseRecord_fault_iff (payload : list byte) :
  (forall f, parseRecord payload = Panic f ->
     exists headerLen n,
       readVarint payload = Ok (headerLen, n) /\ n <> 0 /\ headerLen < n
       /\ f = SliceLowAboveHigh n headerLen)
  /\ (forall headerLen n,
        readVarint payload = Ok (headerLen, n) -> n <> 0 -> headerLen < n ->
        parseRecord payload = Panic (SliceLowAboveHigh n headerLen)).
Proof.
  destruct (parseRecord_cases payload)
    as (h & n & Hread & Hh & Hn & Hnl & Herr & Hpanic & Hgood).
  split.
  - intros f Hf.
    destruct (Z.eq_dec n 0) as [Hn0 | Hn0].
    { rewrite Herr in Hf by (left; exact Hn0). discriminate. }
    destruct (Z.ltb_spec (len payload) h) as [Hlt | Hle].
    { rewrite Herr in Hf by (right; exact Hlt). discriminate. }
    destruct (Z.ltb_spec h n) as [Hinv | Hfwd].
    + rewrite Hpanic in Hf by assumption. injection Hf as <-.
      exists h, n. repeat split; assumption.
    + destruct (Hgood Hn0 Hle Hfwd) as [[e He] | [vs Hvs]]; congruence.
  - intros h' n' Hread' Hn0 Hlt.
    rewrite Hread in Hread'. injection Hread' as <- <-.
    apply Hpanic; [exact Hn0 | lia | exact Hlt].
Qed.

(** ** tryRecoverRow: which schemas are tried and what they are offered *)

Lemma insertVector_lookup (isKey : ColumnInfo -> bool) (rowID : Z)
    (cols : list ColumnInfo) (values : list Value) (i : nat) (a : Value) :
  insertVector isKey rowID cols values !! i = Some a ->
  exists col v,
    cols !! i = Some col /\ values !! i = Some v
    /\ a = substituteRowID isKey rowID col v.
Proof.
  unfold insertVector. intros H.
  apply lookup_zip_with_Some in H as (col & v & -> & Hc & Hv). eauto.
Qed.

Section DispatchProps.

Variable DB : Type.
Variable Exec : DB -> string -> list Value -> DB * bool.
Variable ToUpper : string -> string.

(** X8.  A row whose arity matches no schema is dropped without a single
    sink call and leaves the database as it was. *)
Theorem tryRecoverRow_no_candidate (rowID : Z) (values : list Value)
    (tables : list TableInfo) (outDB : DB) :
  Forall (fun table => len (tbl_Columns table) <> len values) tables ->
  tryRecoverRow DB Exec ToUpper rowID values tables outDB
  = (outDB, [], Ok tt).
Proof.
  induction 1 as [| table tables Hne _ IH]; [reflexivity |].
  simpl. destruct (Z.eqb_spec (len (tbl_Columns table)) (len values));
    [contradiction |]. exact IH.
Qed.

(** X9.  First match wins: after schemas of other arities, the first
    schema of the row's arity that the sink accepts takes the row with
    one call, and no schema after it is tried. *)
Theorem tryRecoverRow_first_wins (rowID : Z) (values : list Value)
    (skipped : list TableInfo) (table : TableInfo)
    (later : list TableInfo) (outDB outDB' : DB) :
  Forall (fun t => len (tbl_Columns t) <> len values) skipped ->
  len (tbl_Columns table) = len values ->
  Exec outDB (insertQuery (tbl_Name table) values)
    (insertVector (isIntegerPk ToUpper) rowID (tbl_Columns table) values)
  = (outDB', true) ->
  tryRecoverRow DB Exec ToUpper rowID values (skipped ++ table :: later)
    outDB
  = (outDB',
     [mkCall (insertQuery (tbl_Name table) values)
        (insertVector (isIntegerPk ToUpper) rowID (tbl_Columns table)
           values) true],
     Ok tt).
Proof.
  intros Hskip Hlen Hexec.
  induction Hskip as [| t skipped Hne _ IH].
  - simpl. rewrite Hlen, Z.eqb_refl. cbn [negb].
    rewrite fillRowID_all by exact Hlen. rewrite Hexec. reflexivity.
  - simpl. destruct (Z.eqb_spec (len (tbl_Columns t)) (len values));
      [contradiction |]. exact IH.
Qed.

(** X10.  Every sink call of [tryRecoverRow] goes to a schema of the
    row's arity, with the statement built for that table and as many
    arguments as the row has values.  Position by position the argument
    is decided by the row and the schema: where the row has a null under
    an INTEGER PRIMARY KEY column it is the rowid as a signed 64-bit
    integer, and everywhere else (a value that is not null, or a column
    that is not such a key) it is the row's own value, unchanged. *)
Theorem tryRecoverRow_arguments (rowID : Z) (values : list Value)
    (tables : list TableInfo) (outDB : DB) :
  Forall (offeredTo (isIntegerPk ToUpper) rowID values tables)
    (tryRecoverRow DB Exec ToUpper rowID values tables outDB).1.2.
Proof.
  revert outDB. induction tables as [| table tables IH]; intros outDB.
  - constructor.
  - assert (Hweak : forall c,
              offeredTo (isIntegerPk ToUpper) rowID values tables c ->
              offeredTo (isIntegerPk ToUpper) rowID values
                (table :: tables) c).
    { intros c (t & Hin & Hrest). exists t.
      split; [right; exact Hin | exact Hrest]. }
    simpl.
    destruct (Z.eqb_spec (len (tbl_Columns table)) (len values))
      as [Hlen | Hlen]; cbn [negb].
    2:{ eapply Forall_impl; [apply IH | exact Hweak]. }
    rewrite fillRowID_all by exact Hlen.
    assert (Hthis : forall ok,
              offeredTo (isIntegerPk ToUpper) rowID values
                (table :: tables)
                (mkCall (insertQuery (tbl_Name table) values)
                   (insertVector (isIntegerPk ToUpper) rowID
                      (tbl_Columns table) values) ok)).
    { intros ok. exists table. split; [left; reflexivity |].
      split; [exact Hlen |]. split; [reflexivity |]. split.
      - cbn [call_args]. unfold insertVector.
        rewrite length_zip_with_r_eq; [reflexivity |].
        unfold len in Hlen. lia.
      - intros i a Ha. cbn [call_args] in Ha.
        apply insertVector_lookup in Ha as (col & v & Hc & Hv & ->).
        exists col, v. split; [exact Hc |]. split; [exact Hv |].
        unfold substituteRowID.
        destruct (isIntegerPk ToUpper col) eqn:Hkey;
          [| right; split; [right; reflexivity | reflexivity]].
        destruct v;
          try (right; split; [left; discriminate | reflexivity]).
        left. repeat split. }
    destruct (Exec outDB _ _) as [db1 ok]. destruct ok.
    + cbn. constructor; [apply Hthis | constructor].
    + specialize (IH db1).
      destruct (tryRecoverRow DB Exec ToUpper rowID values tables db1)
        as [[db' calls] r].
      cbn in IH |- *. constructor; [apply Hthis |].
      eapply Forall_impl; [exact IH | exact Hweak].
Qed.

End DispatchProps.

Lemma tryRecoverRow_no_candidate_witness :
  Forall (fun table => len (tbl_Columns table) <> len [VInt 1]) [t_a; t_b]
  /\ tryRecoverRow Z pickySink asciiToUpper 7 [VInt 1] [t_a; t_b] 0
     = (0, [], Ok tt).
Proof.
  assert (H : Forall (fun table => len (tbl_Columns table) <> len [VInt 1])
                [t_a; t_b]) by (repeat constructor; discriminate).
  split; [exact H |].
  exact (tryRecoverRow_no_candidate Z pickySink asciiToUpper 7 [VInt 1]
           [t_a; t_b] 0 H).
Defined.

Lemma tryRecoverRow_first_wins_witness :
  tryRecoverRow _ recordingSink asciiToUpper 7 [VNull; VText [x61]]
    ([t_one] ++ t_a :: [t_b]) []
  = ([("INSERT OR IGNORE INTO a VALUES (?, ?)", [VInt 7; VText [x61]])],
     [mkCall "INSERT OR IGNORE INTO a VALUES (?, ?)"
        [VInt 7; VText [x61]] true],
     Ok tt).
Proof.
  assert (H1 : Forall (fun t => len (tbl_Columns t)
                                <> len [VNull; VText [x61]]) [t_one])
    by (repeat constructor; discriminate).
  assert (H2 : len (tbl_Columns t_a) = len [VNull; VText [x61]])
    by reflexivity.
  exact (tryRecoverRow_first_wins _ recordingSink asciiToUpper 7
           [VNull; VText [x61]] [t_one] t_a [t_b] [] _ H1 H2 eq_refl).
Defined.

(** ** tryRecoverRow: the order of the attempts *)

Section OrderProps.

Variable DB : Type.
Variable Exec : DB -> string -> list Value -> DB * bool.
Variable ToUpper : string -> string.

(** X11.  The sink calls of [tryRecoverRow] follow the schemas of the
    row's arity in schema order, one call each, without a gap; every
    call before the last was refused; and when all calls were refused
    every schema of that arity has been tried. *)
Theorem tryRecoverRow_in_order (rowID : Z) (values : list Value)
    (tables : list TableInfo) (outDB : DB) :
  let calls :=
    (tryRecoverRow DB Exec ToUpper rowID values tables outDB).1.2 in
  (exists untried,
     map (fun table => insertQuery (tbl_Name table) values)
       (candidates values tables)
     = map call_query calls ++ untried)
  /\ Forall (fun c => call_ok c = false) (removelast calls)
  /\ (Forall (fun c => call_ok c = false) calls ->
      length calls = length (candidates values tables)).
Proof.
  cbv zeta. revert outDB.
  induction tables as [| table tables IH]; intros outDB.
  - cbn. split; [exists []; reflexivity |].
    split; [constructor | reflexivity].
  - unfold candidates in *. cbn [tryRecoverRow].
    destruct (Z.eqb_spec (len (tbl_Columns table)) (len values))
      as [Hlen | Hlen]; cbn [negb].
    2:{ rewrite filter_cons_False by exact Hlen. apply IH. }
    rewrite filter_cons_True by exact Hlen.
    rewrite fillRowID_all by exact Hlen.
    destruct (Exec outDB _ _) as [db1 ok]. destruct ok.
    + cbn. split; [eexists; reflexivity |].
      split; [constructor |].
      intros Hall. apply Forall_cons in Hall as [Hok _]. discriminate Hok.
    + specialize (IH db1).
      destruct (tryRecoverRow DB Exec ToUpper rowID values tables db1)
        as [[db' calls] r].
      cbn in IH |- *. destruct IH as ([untried Hpre] & Hlast & Hall).
      split; [exists untried; rewrite Hpre; reflexivity |].
      split.
      * destruct calls as [| c calls]; [constructor |].
        constructor; [reflexivity | exact Hlast].
      * intros Hf. apply Forall_cons in Hf as [_ Hf].
        rewrite (Hall Hf). reflexivity.
Qed.

End OrderProps.

(** ** decodeCell: a cell is decoded from its own bytes *)

(** X12.  A cell that starts at [cellOffset] with the varint of its payload
    size, the varint of its rowid and a payload of that size is decoded
    from these bytes alone: the result is the rowid with the values of
    the record, a skip when the record is a decode error, whatever bytes
    come before and after the cell in the page. *)
Theorem decodeCell_well_formed (before sizeEnc rowEnc payload after : list byte)
    (rowID : Z) :
  sizeEnc <> [] -> readVarint sizeEnc = Ok (len payload, len sizeEnc) ->
  rowEnc <> [] -> readVarint rowEnc = Ok (rowID, len rowEnc) ->
  decodeCell (before ++ sizeEnc ++ rowEnc ++ payload ++ after) (len before)
  = match parseRecord payload with
    | Ok values => Ok (Some (rowID, values))
    | Err _ => Ok None
    | Panic f => Panic f
    end.
Proof.
  intros Hs Hsize Hr Hrow. unfold decodeCell.
  pose proof (len_nonneg before). pose proof (len_nonneg payload).
  pose proof (len_nonneg after).
  pose proof (len_pos_of_nonempty _ Hs). pose proof (len_pos_of_nonempty _ Hr).
  rewrite sliceFrom_in_range by (rewrite ?len_app; lia). cbn [bind].
  replace (Z.to_nat (len before)) with (length before) by (unfold len; lia).
  rewrite drop_app_length.
  rewrite (readVarint_app _ _ _ Hs Hsize). cbn [bind].
  destruct (Z.eqb_spec (len sizeEnc) 0); [lia |].
  rewrite sliceFrom_in_range by (rewrite ?len_app; lia). cbn [bind].
  replace (Z.to_nat (len sizeEnc)) with (length sizeEnc) by (unfold len; lia).
  rewrite drop_app_length.
  rewrite (readVarint_app _ _ _ Hr Hrow). cbn [bind].
  destruct (Z.eqb_spec (len rowEnc) 0); [lia |].
  destruct (readVarint_total sizeEnc) as (ps & wd & Hps & Hpsr & _).
  rewrite Hsize in Hps. injection Hps as <- _.
  rewrite int_small by exact Hpsr.
  destruct (Z.ltb_spec
              (len (sizeEnc ++ rowEnc ++ payload ++ after)
               - (len sizeEnc + len rowEnc)) (len payload)) as [Hlt | _].
  { rewrite !len_app in Hlt. lia. }
  rewrite slice_in_range by (rewrite ?len_app; lia). cbn [bind].
  replace (Z.to_nat (len sizeEnc + len rowEnc))
    with (length (sizeEnc ++ rowEnc))
    by (rewrite length_app; unfold len; lia).
  rewrite (app_assoc sizeEnc rowEnc), drop_app_length.
  replace (Z.to_nat (len sizeEnc + len rowEnc + len payload
                     - (len sizeEnc + len rowEnc)))
    with (length payload) by (unfold len; lia).
  rewrite take_app_length. reflexivity.
Qed.

Lemma decodeCell_well_formed_witness :
  decodeCell ([xaa; xbb] ++ [x05] ++ [x07] ++ [x03; x01; x0f; x05; x61]
              ++ [xcc]) (len [xaa; xbb])
  = Ok (Some (7, [VInt 5; VText [x61]])).
Proof.
  exact (decodeCell_well_formed [xaa; xbb] [x05] [x07]
           [x03; x01; x0f; x05; x61] [xcc] 7
           ltac:(discriminate) eq_refl ltac:(discriminate) eq_refl).
Defined.

(** ** decodeCell: cells that spill over the page *)

(** X13.  A cell whose declared payload size exceeds the bytes left in the
    page after its two varints is skipped: no overflow page is followed
    and no partial record is decoded. *)
Theorem decodeCell_overflow_skipped (before sizeEnc rowEnc rest : list byte)
    (size rowID : Z) :
  sizeEnc <> [] -> readVarint sizeEnc = Ok (size, len sizeEnc) ->
  rowEnc <> [] -> readVarint rowEnc = Ok (rowID, len rowEnc) ->
  len rest < size ->
  decodeCell (before ++ sizeEnc ++ rowEnc ++ rest) (len before) = Ok None.
Proof.
  intros Hs Hsize Hr Hrow Hover. unfold decodeCell.
  pose proof (len_nonneg before). pose proof (len_nonneg rest).
  pose proof (len_pos_of_nonempty _ Hs). pose proof (len_pos_of_nonempty _ Hr).
  rewrite sliceFrom_in_range by (rewrite ?len_app; lia). cbn [bind].
  replace (Z.to_nat (len before)) with (length before) by (unfold len; lia).
  rewrite drop_app_length.
  rewrite (readVarint_app _ _ _ Hs Hsize). cbn [bind].
  destruct (Z.eqb_spec (len sizeEnc) 0); [lia |].
  rewrite sliceFrom_in_range by (rewrite ?len_app; lia). cbn [bind].
  replace (Z.to_nat (len sizeEnc)) with (length sizeEnc) by (unfold len; lia).
  rewrite drop_app_length.
  rewrite (readVarint_app _ _ _ Hr Hrow). cbn [bind].
  destruct (Z.eqb_spec (len rowEnc) 0); [lia |].
  destruct (readVarint_total sizeEnc) as (ps & wd & Hps & Hpsr & _).
  rewrite Hsize in Hps. injection Hps as <- _.
  rewrite int_small by exact Hpsr.
  destruct (Z.ltb_spec (len (sizeEnc ++ rowEnc ++ rest)
                        - (len sizeEnc + len rowEnc)) size) as [_ | Hge];
    [reflexivity |].
  rewrite !len_app in Hge. lia.
Qed.

Lemma decodeCell_overflow_skipped_witness :
  decodeCell ([xaa] ++ [x06] ++ [x07] ++ [x03; x01; x0f; x05; x61])
    (len [xaa]) = Ok None.
Proof.
  apply (decodeCell_overflow_skipped [xaa] [x06] [x07]
           [x03; x01; x0f; x05; x61] 6 7).
  - discriminate.
  - reflexivity.
  - discriminate.
  - reflexivity.
  - vm_compute. reflexivity.
Defined.

(** ** processPage on pages of any length *)

Lemma short_leaf_dec (pageData : list byte) (pageIndex : Z) :
  (headerOffsetOf pageIndex < len pageData < headerOffsetOf pageIndex + 5
   /\ pageData !! Z.to_nat (headerOffsetOf pageIndex) = Some x0d)
  \/ ~ (headerOffsetOf pageIndex < len pageData
                                 < headerOffsetOf pageIndex + 5
        /\ pageData !! Z.to_nat (headerOffsetOf pageIndex) = Some x0d).
Proof.
  destruct (decide (headerOffsetOf pageIndex < len pageData
                    < headerOffsetOf pageIndex + 5)) as [H1 | H1];
    [| right; tauto].
  destruct (pageData !! Z.to_nat (headerOffsetOf pageIndex)) as [b |];
    [| right; intros [_ H]; discriminate].
  destruct (Z.eq_dec (byteZ b) 13) as [Hb | Hb].
  - left. split; [exact H1 |]. f_equal. apply byteZ_inj. exact Hb.
  - right. intros [_ H]. injection H as ->. apply Hb. reflexivity.
Qed.

Section PageProps.

Variable DB : Type.
Variable Exec : DB -> string -> list Value -> DB * bool.
Variable ToUpper : string -> string.

(** The outcomes of [processPage] over all pages. *)
Lemma processPage_cases (pageData : list byte) (pageIndex : Z)
    (tables : list TableInfo) (outDB : DB) :
  let h := headerOffsetOf pageIndex in
  exists outDB' rows r,
    processPage DB Exec ToUpper pageData pageIndex tables outDB
    = (outDB', rows, r)
    /\ ((h < len pageData < h + 5
         /\ pageData !! Z.to_nat h = Some x0d) ->
        outDB' = outDB /\ rows = []
        /\ r = Panic (SliceBeyondCap (h + 5) (len pageData)))
    /\ (~ (h < len pageData < h + 5
           /\ pageData !! Z.to_nat h = Some x0d) ->
        nilOrInverted r).
Proof.
  intros h. unfold processPage. fold (headerOffsetOf pageIndex). fold h.
  assert (Hh : 0 <= h)
    by (subst h; unfold headerOffsetOf; destruct (pageIndex =? 0); lia).
  destruct (Z.leb_spec (len pageData) h) as [Hshort | Hlong].
  { exists outDB, [], (Ok tt). split; [reflexivity |].
    split; [lia |]. intros _. left. reflexivity. }
  destruct (index_in_range pageData h ltac:(lia)) as (flag & Hidx & Hlook).
  rewrite Hidx.
  destruct (Z.eqb_spec (byteZ flag) 13) as [Hleaf | Hother]; cbn [negb].
  2:{ exists outDB, [], (Ok tt). split; [reflexivity |]. split.
      - intros [_ Hx]. rewrite Hlook in Hx. injection Hx as ->.
        exfalso. apply Hother. reflexivity.
      - intros _. left. reflexivity. }
  assert (Hflag : flag = x0d) by (apply byteZ_inj; exact Hleaf).
  destruct (Z.ltb_spec (len pageData) (h + 5)) as [Hcut | Hfit].
  - unfold slice.
    destruct (Z.ltb_spec (h + 5) 0); [lia |].
    destruct (Z.ltb_spec (len pageData) (h + 5)); [| lia].
    cbn [orb bind].
    exists outDB, [], (Panic (SliceBeyondCap (h + 5) (len pageData))).
    split; [reflexivity |]. split; [intros _; repeat split |].
    intros Hnot. exfalso. apply Hnot. split; [lia |].
    rewrite Hlook, Hflag. reflexivity.
  - destruct (read_u16_field pageData (h + 3))
      as (numCells & Hread & Hrange); [lia | lia |].
    replace (h + 3 + 2) with (h + 5) in Hread by lia.
    rewrite Hread.
    destruct (cellLoop_bounded DB Exec ToUpper (Z.to_nat (int numCells))
                pageData h 0 tables outDB Hh ltac:(lia))
      as (db' & rows & r & Heq & _ & _ & Hr).
    exists db', rows, r. split; [exact Heq |].
    split; [lia |]. intros _. exact Hr.
Qed.

(** X14.  A leaf-flagged page that ends before the cell count field
    (fewer than five bytes from the header offset) makes [processPage]
    panic on [pageData[headerOffset+3 : headerOffset+5]], before any
    sink call. *)
Theorem processPage_short_leaf_page (pageData : list byte)
    (pageIndex : Z) (tables : list TableInfo) (outDB : DB) :
  headerOffsetOf pageIndex < len pageData < headerOffsetOf pageIndex + 5 ->
  pageData !! Z.to_nat (headerOffsetOf pageIndex) = Some x0d ->
  processPage DB Exec ToUpper pageData pageIndex tables outDB
  = (outDB, [],
     Panic (SliceBeyondCap (headerOffsetOf pageIndex + 5) (len pageData))).
Proof.
  intros Hlen Hflag.
  destruct (processPage_cases pageData pageIndex tables outDB)
    as (db' & rows & r & Heq & Hshort & _).
  destruct (Hshort (conj Hlen Hflag)) as (-> & -> & ->). exact Heq.
Qed.

(** X15.  On every page, of any length, [processPage] either returns
    [nil] or panics: it never returns a non-nil error, so the branch of
    [Run] that prints a page error is never taken. *)
Theorem processPage_error_always_nil (pageData : list byte)
    (pageIndex : Z) (tables : list TableInfo) (outDB : DB) :
  exists outDB' rows r,
    processPage DB Exec ToUpper pageData pageIndex tables outDB
    = (outDB', rows, r)
    /\ (r = Ok tt \/ exists f, r = Panic f).
Proof.
  destruct (processPage_cases pageData pageIndex tables outDB)
    as (db' & rows & r & Heq & Hshort & Hlong).
  exists db', rows, r. split; [exact Heq |].
  destruct (short_leaf_dec pageData pageIndex) as [Hs | Hn].
  - destruct (Hshort Hs) as (_ & _ & ->). right. eauto.
  - destruct (Hlong Hn) as [-> | (lo & hi & -> & _)];
      [left; reflexivity | right; eauto].
Qed.

End PageProps.

Lemma processPage_short_leaf_page_witness :
  processPage Z pickySink asciiToUpper [x0d; x00; x00] 1 [t_a] 0
  = (0, [], Panic (SliceBeyondCap 5 3)).
Proof.
  exact (processPage_short_leaf_page Z pickySink asciiToUpper
           [x0d; x00; x00] 1 [t_a] 0 ltac:(vm_compute; split; reflexivity)
           eq_refl).
Defined.

(** ** The read loop of Run *)

Lemma Read_full (buffer page rest : list byte) :
  0 < len page -> len buffer = len page ->
  Read buffer (page ++ rest) = (len page, false, page, rest).
Proof.
  intros Hpos Hbuf. unfold Read.
  pose proof (len_nonneg rest) as Hr.
  destruct (Z.eqb_spec (len buffer) 0); [lia |].
  destruct (Z.eqb_spec (len (page ++ rest)) 0) as [H0 | _];
    [rewrite len_app in H0; lia |].
  rewrite len_app, Hbuf, Z.min_l by lia.
  replace (Z.to_nat (len page)) with (length page) by (unfold len; lia).
  rewrite take_app_length, drop_app_length.
  rewrite drop_ge by (unfold len in Hbuf; lia).
  rewrite app_nil_r. reflexivity.
Qed.

Lemma Read_partial (buffer tail : list byte) :
  0 < len buffer -> len tail < len buffer ->
  exists n eof buffer' rest',
    Read buffer tail = (n, eof, buffer', rest')
    /\ (eof = true \/ n <> len buffer).
Proof.
  intros Hpos Hlt. unfold Read. pose proof (len_nonneg tail).
  destruct (Z.eqb_spec (len buffer) 0); [lia |].
  destruct (Z.eqb_spec (len tail) 0).
  - eexists _, _, _, _. split; [reflexivity |]. left. reflexivity.
  - eexists _, _, _, _. split; [reflexivity |]. right. lia.
Qed.

Lemma Read_empty_buffer (rest : list byte) :
  Read [] rest = (0, false, [], rest).
Proof. reflexivity. Qed.

Section RunProps.

Variable DB : Type.
Variable Exec : DB -> string -> list Value -> DB * bool.
Variable ToUpper : string -> string.

Lemma Run_loop_scan (PageSize : Z) (tail : list byte)
    (tables : list TableInfo) (pages : list (list byte)) :
  forall (rounds : nat) (buffer : list byte) (pageIndex : Z) (outDB : DB),
    0 < PageSize -> len buffer = PageSize ->
    Forall (fun page => len page = PageSize) pages ->
    len tail < PageSize -> (length pages < rounds)%nat ->
    Run_loop DB Exec ToUpper rounds PageSize buffer
      (concat pages ++ tail) pageIndex tables outDB
    = Some (scanPages DB Exec ToUpper pages pageIndex tables outDB).
Proof.
  induction pages as [| page pages IH];
    intros rounds buffer pageIndex outDB Hpos Hbuf Hpages Htail Hrounds.
  - destruct rounds as [| rounds]; [simpl in Hrounds; lia |].
    cbn [concat app Run_loop scanPages].
    destruct (Read_partial buffer tail ltac:(lia) ltac:(lia))
      as (n & eof & b' & r' & Hread & Hstop).
    rewrite Hread. destruct eof; [reflexivity |].
    destruct Hstop as [Heof | Hn]; [discriminate |].
    destruct (Z.eqb_spec n PageSize); [lia | reflexivity].
  - apply Forall_cons in Hpages as [Hpage Hpages].
    destruct rounds as [| rounds]; [simpl in Hrounds; lia |].
    cbn [concat Run_loop scanPages]. rewrite <- app_assoc.
    rewrite Read_full by lia. rewrite Hpage, Z.eqb_refl. cbn [negb].
    destruct (processPage DB Exec ToUpper page pageIndex tables outDB)
      as [[db1 rows] r].
    rewrite (IH rounds page (pageIndex + 1) db1) by
      (try assumption; simpl in Hrounds; lia).
    destruct r;
      destruct (scanPages DB Exec ToUpper pages (pageIndex + 1) tables db1)
        as [[db2 rows'] r']; reflexivity.
Qed.

(** X16.  [Run] scans the file page by page: with a positive page size,
    a file made of whole pages followed by fewer than [PageSize] stray
    bytes is handled as [processPage] on each whole page in file order,
    the pages numbered from 0 and each starting from the database the
    page before left; the stray bytes are ignored, and the first panic
    ends the run.  One round more than there are pages is enough for
    the loop to end. *)
Theorem Run_pages_in_order (PageSize : Z) (pages : list (list byte))
    (tail : list byte) (tables : list TableInfo) (outDB : DB)
    (rounds : nat) :
  0 < PageSize ->
  Forall (fun page => len page = PageSize) pages ->
  len tail < PageSize -> (length pages < rounds)%nat ->
  Run_pages DB Exec ToUpper rounds PageSize (concat pages ++ tail)
    tables outDB
  = Some (scanPages DB Exec ToUpper pages 0 tables outDB).
Proof.
  intros Hpos Hpages Htail Hrounds. unfold Run_pages.
  apply Run_loop_scan; try assumption.
  unfold len. rewrite repeat_length. lia.
Qed.

Lemma Run_loop_zero (rounds : nat) (rest : list byte) (pageIndex : Z)
    (tables : list TableInfo) (outDB : DB) :
  Run_loop DB Exec ToUpper rounds 0 [] rest pageIndex tables outDB = None.
Proof.
  revert pageIndex.
  induction rounds as [| rounds IH]; intros pageIndex; [reflexivity |].
  cbn [Run_loop]. rewrite Read_empty_buffer. cbn [Z.eqb negb].
  assert (Hpage : processPage DB Exec ToUpper [] pageIndex tables outDB
                  = (outDB, [], Ok tt)).
  { unfold processPage. destruct (pageIndex =? 0); reflexivity. }
  rewrite Hpage, IH. reflexivity.
Qed.

(** X17.  With page size 0 the loop of [Run] never ends: every read
    returns 0 bytes without an error, 0 is the page size, the empty page
    is processed and the loop starts over.  No number of rounds brings
    it to an end, whatever the file holds. *)
Theorem Run_pages_zero_never_ends (rounds : nat) (file : list byte)
    (tables : list TableInfo) (outDB : DB) :
  Run_pages DB Exec ToUpper rounds 0 file tables outDB = None.
Proof. unfold Run_pages. apply Run_loop_zero. Qed.

(** Scanning one list of pages after another: a panic in the front is
    the end of the whole scan. *)
Lemma scanPages_app_any (front back : list (list byte)) (pageIndex : Z)
    (tables : list TableInfo) (outDB : DB) :
  scanPages DB Exec ToUpper (front ++ back) pageIndex tables outDB
  = let '(db1, rows1, r1) :=
      scanPages DB Exec ToUpper front pageIndex tables outDB in
    match r1 with
    | Panic f => (db1, rows1, Panic f)
    | _ =>
        let '(db2, rows2, r2) :=
          scanPages DB Exec ToUpper back (pageIndex + len front) tables
            db1 in
        (db2, rows1 ++ rows2, r2)
    end.
Proof.
  revert pageIndex outDB.
  induction front as [| page front IH]; intros pageIndex outDB.
  - cbn [app scanPages]. change (len (@nil (list byte))) with 0.
    rewrite Z.add_0_r.
    destruct (scanPages DB Exec ToUpper back pageIndex tables outDB)
      as [[db2 rows2] r2]. reflexivity.
  - cbn [app scanPages].
    destruct (processPage DB Exec ToUpper page pageIndex tables outDB)
      as [[dbp rowsp] rp].
    assert (Hgo :
               scanPages DB Exec ToUpper (front ++ back) (pageIndex + 1)
                 tables dbp
               = (let '(db1, rows1, r1) :=
                    scanPages DB Exec ToUpper front (pageIndex + 1) tables
                      dbp in
                  match r1 with
                  | Panic f => (db1, rows1, Panic f)
                  | _ =>
                      let '(db2, rows2, r2) :=
                        scanPages DB Exec ToUpper back
                          (pageIndex + len (page :: front)) tables db1 in
                      (db2, rows1 ++ rows2, r2)
                  end)).
    { rewrite IH, len_cons.
      replace (pageIndex + 1 + len front)
        with (pageIndex + (len front + 1)) by lia. reflexivity. }
    destruct rp; [| | reflexivity]; rewrite Hgo;
      destruct (scanPages DB Exec ToUpper front (pageIndex + 1) tables dbp)
        as [[dbf rowsf] rf];
      destruct rf; try reflexivity;
      destruct (scanPages DB Exec ToUpper back
                  (pageIndex + len (page :: front)) tables dbf)
        as [[db2 rows2] r2]; rewrite app_assoc; reflexivity.
Qed.

Lemma processPage_zeroPage (pageIndex : Z) (tables : list TableInfo)
    (outDB : DB) :
  processPage DB Exec ToUpper zeroPage pageIndex tables outDB
  = (outDB, [], Ok tt).
Proof. unfold processPage. destruct (pageIndex =? 0); reflexivity. Qed.

End RunProps.

Lemma Run_pages_in_order_witness :
  Run_pages Z pickySink asciiToUpper 4 512
    (concat threePages ++ [x01; x02; x03; x04; x05]) [t_a; t_b] 0
  = Some (scanPages Z pickySink asciiToUpper threePages 0 [t_a; t_b] 0).
Proof.
  apply (Run_pages_in_order Z pickySink asciiToUpper 512 threePages
           [x01; x02; x03; x04; x05] [t_a; t_b] 0 4).
  - lia.
  - repeat constructor.
  - vm_compute. reflexivity.
  - simpl. lia.
Defined.

(** ** copyAndWipe of the demo *)

Lemma len_concat_pages (size : Z) (pages : list (list byte)) :
  Forall (fun page => len page = size) pages ->
  len (concat pages) = size * len pages.
Proof.
  induction 1 as [| page pages Hp _ IH].
  - unfold len. simpl. lia.
  - cbn [concat]. rewrite len_app, len_cons, Hp, IH. lia.
Qed.

(** Writing over a stretch of the same length inside a file. *)
Lemma WriteAt_inside (front old back b : list byte) :
  len old = len b ->
  WriteAt (front ++ old ++ back) b (len front) = Ok (front ++ b ++ back).
Proof.
  intros Hlen. unfold WriteAt.
  pose proof (len_nonneg front). pose proof (len_nonneg old).
  pose proof (len_nonneg back).
  destruct (Z.ltb_spec (len front) 0); [lia |].
  replace (Z.to_nat (len front - len (front ++ old ++ back))) with 0%nat
    by (rewrite !len_app; lia).
  cbn [repeat]. rewrite app_nil_r.
  replace (Z.to_nat (len front)) with (length front) by (unfold len; lia).
  rewrite take_app_length.
  replace (Z.to_nat (len front + len b)) with (length (front ++ old))
    by (rewrite length_app; unfold len in *; lia).
  rewrite (app_assoc front old), drop_app_length. reflexivity.
Qed.

Lemma copyAndWipe_pages (pages : list (list byte)) (tail : list byte)
    (k : nat) :
  Forall (fun page => len page = 4096) pages ->
  (k < length pages)%nat ->
  copyAndWipe (concat pages ++ tail) (4096 * Z.of_nat k)
  = Ok (concat (<[k := zeroPage]> pages) ++ tail).
Proof.
  intros Hpages Hk.
  destruct (lookup_lt_is_Some_2 pages k Hk) as [page Hpage].
  pose proof (take_drop_middle pages k page Hpage) as Hsplit.
  set (front := take k pages) in *. set (back := drop (S k) pages) in *.
  assert (Hfront : length front = k)
    by (subst front; rewrite length_take; lia).
  rewrite <- Hsplit in Hpages |- *.
  apply Forall_app in Hpages as [Hf Hb].
  apply Forall_cons in Hb as [Hp Hb].
  replace k with (length front + 0)%nat at 2 by lia.
  rewrite insert_app_r. cbn [list_insert insert].
  rewrite !concat_app. cbn [concat].
  pose proof (len_concat_pages 4096 front Hf) as Hlf.
  assert (Hoff : 4096 * Z.of_nat k = len (concat front))
    by (rewrite Hlf; unfold len; lia).
  unfold copyAndWipe, zeroPage. rewrite Hoff, <- !app_assoc.
  apply WriteAt_inside.
  rewrite Hp. unfold len. rewrite repeat_length. reflexivity.
Qed.

(** X18.  [copyAndWipe] at the offset of page [k] of a file of 4096-byte
    pages replaces that page by 4096 zero bytes and leaves every other
    byte of the copy as in the source. *)
Theorem copyAndWipe_page (pages : list (list byte)) (tail : list byte)
    (k : nat) :
  Forall (fun page => len page = 4096) pages ->
  (k < length pages)%nat ->
  copyAndWipe (concat pages ++ tail) (4096 * Z.of_nat k)
  = Ok (concat (<[k := zeroPage]> pages) ++ tail).
Proof. exact (copyAndWipe_pages pages tail k). Qed.

Lemma copyAndWipe_page_witness :
  copyAndWipe (concat threePages4k ++ []) (4096 * Z.of_nat 1)
  = Ok (concat (<[1%nat := zeroPage]> threePages4k) ++ []).
Proof.
  apply (copyAndWipe_page threePages4k [] 1).
  - repeat constructor.
  - simpl. lia.
Defined.

(** ** A wiped page costs its own rows only *)

Section WipeProps.

Variable DB : Type.
Variable Exec : DB -> string -> list Value -> DB * bool.
Variable ToUpper : string -> string.

(** X19.  Scanning the copy that [copyAndWipe] made with page [k] wiped
    is scanning the pages before [k] and then, unless one of them made
    [processPage] panic (which ends the run there, as it does on the
    original file), the pages after [k] under their original page
    numbers, from the database the pages before [k] left: the wiped page
    adds no sink call and hands the database on unchanged. *)
Theorem Run_after_wipe (pages : list (list byte)) (tail : list byte)
    (k : nat) (tables : list TableInfo) (outDB : DB) (rounds : nat)
    (wiped : list byte) :
  Forall (fun page => len page = 4096) pages ->
  (k < length pages)%nat -> len tail < 4096 ->
  (length pages < rounds)%nat ->
  copyAndWipe (concat pages ++ tail) (4096 * Z.of_nat k) = Ok wiped ->
  Run_pages DB Exec ToUpper rounds 4096 wiped tables outDB
  = Some
      (let '(db1, rows1, r1) :=
         scanPages DB Exec ToUpper (take k pages) 0 tables outDB in
       match r1 with
       | Panic f => (db1, rows1, Panic f)
       | _ =>
           let '(db2, rows2, r2) :=
             scanPages DB Exec ToUpper (drop (S k) pages) (Z.of_nat k + 1)
               tables db1 in
           (db2, rows1 ++ rows2, r2)
       end).
Proof.
  intros Hpages Hk Htail Hrounds Hwipe.
  rewrite copyAndWipe_pages in Hwipe by assumption.
  injection Hwipe as <-.
  destruct (lookup_lt_is_Some_2 pages k Hk) as [page Hpage].
  assert (Hins : <[k := zeroPage]> pages
                 = take k pages ++ zeroPage :: drop (S k) pages).
  { rewrite <- (take_drop_middle pages k page Hpage) at 1.
    replace k with (length (take k pages) + 0)%nat at 1
      by (rewrite length_take; lia).
    rewrite insert_app_r. reflexivity. }
  unfold Run_pages.
  rewrite (Run_loop_scan DB Exec ToUpper 4096 tail tables
             (<[k := zeroPage]> pages)); try assumption; try lia.
  - f_equal. rewrite Hins, scanPages_app_any.
    destruct (scanPages DB Exec ToUpper (take k pages) 0 tables outDB)
      as [[db1 rows1] r1].
    cbn [scanPages]. rewrite processPage_zeroPage.
    replace (0 + len (take k pages) + 1) with (Z.of_nat k + 1)
      by (unfold len; rewrite length_take; lia).
    destruct (scanPages DB Exec ToUpper (drop (S k) pages) (Z.of_nat k + 1)
                tables db1) as [[db2 rows2] r2].
    destruct r1; reflexivity.
  - unfold len. rewrite repeat_length. lia.
  - rewrite Hins. rewrite <- (take_drop_middle pages k page Hpage) in Hpages.
    apply Forall_app in Hpages as [Hf Hb].
    apply Forall_cons in Hb as [_ Hb].
    apply Forall_app. split; [exact Hf |].
    constructor; [| exact Hb].
    unfold len, zeroPage. rewrite repeat_length. reflexivity.
  - rewrite length_insert. lia.
Qed.

End WipeProps.

Lemma Run_after_wipe_witness :
  Run_pages _ recordingSink asciiToUpper 4 4096
    (concat (<[1%nat := zeroPage]> threePages4k) ++ []) [t_a] []
  = Some
      ([("INSERT OR IGNORE INTO a VALUES (?, ?)", [VInt 1; VText [x61]]);
        ("INSERT OR IGNORE INTO a VALUES (?, ?)", [VInt 2; VText [x62; x62]]);
        ("INSERT OR IGNORE INTO a VALUES (?, ?)",
         [VInt 3; VText [x63; x63; x63]])],
       [] ++
       [[mkCall "INSERT OR IGNORE INTO a VALUES (?, ?)"
           [VInt 1; VText [x61]] true];
        [mkCall "INSERT OR IGNORE INTO a VALUES (?, ?)"
           [VInt 2; VText [x62; x62]] true];
        [mkCall "INSERT OR IGNORE INTO a VALUES (?, ?)"
           [VInt 3; VText [x63; x63; x63]] true]],
       Ok tt).
Proof.
  assert (H1 : Forall (fun page => len page = 4096) threePages4k)
    by (repeat constructor).
  assert (H2 : (1 < length threePages4k)%nat) by (simpl; lia).
  assert (H3 : len (@nil byte) < 4096) by (vm_compute; reflexivity).
  assert (H4 : (length threePages4k < 4)%nat) by (simpl; lia).
  assert (H5 : copyAndWipe (concat threePages4k ++ []) (4096 * Z.of_nat 1)
               = Ok (concat (<[1%nat := zeroPage]> threePages4k) ++ []))
    by (vm_compute; reflexivity).
  refine (eq_trans
            (Run_after_wipe _ recordingSink asciiToUpper threePages4k [] 1
               [t_a] [] 4 _ H1 H2 H3 H4 H5) _).
  vm_compute. reflexivity.
Defined.
